(** * Ownership primitives of memory.h: MyUniquePtr, ControlBlock,
      MySharedPtr and MyWeakPtr

    A shallow embedding of the smart pointers of [src/memory.h].  Raw
    pointers are nullable addresses, [size_t] counters are integers
    reduced modulo 2^64, control blocks live in a heap indexed by their
    address, and every member function is a computation over a world
    made of that heap and of the list of DeletionPolicy invocations.  A
    dereference of [nullptr] or of a freed control block is undefined
    behaviour in C++; the embedding stops there with a [fault]. *)

From Stdlib Require Import ZArith Lia List Bool.
From stdpp Require Import base option gmap list strings.

Local Open Scope Z_scope.

(** ** Machine integers and raw pointers *)

(** [size_t] of a 64-bit target: arithmetic wraps modulo 2^64. *)
Definition SIZE_WIDTH : Z := 64.
Definition size_t (z : Z) : Z := z mod 2 ^ SIZE_WIDTH.

(** An address; a raw pointer [T*] is [None] for [nullptr]. *)
Abbreviation loc := positive (only parsing).
Abbreviation rawptr := (option positive) (only parsing).
Definition nullptr : rawptr := None.

Definition rawptr_eqb (p q : rawptr) : bool := bool_decide (p = q).

(** ** Deletion policies

    [Deleter] is a template parameter: a type that is default
    constructible and callable on a raw pointer.  Calling it is recorded
    in the world, with the policy value that was called. *)
Class DeletionPolicy (D : Type) : Type := default_construct : D.

(** The two specialisations of [default_delete]: [delete ptr] for [T]
    and [delete[] ptr] for [T[]].  Both are stateless. *)
Inductive variant : Type := Scalar | Array.
Inductive default_delete (v : variant) : Type := DefaultDelete.
Arguments DefaultDelete {v}.

#[export] Instance default_delete_policy (v : variant) :
  DeletionPolicy (default_delete v) := DefaultDelete.

(** A user-supplied policy with state, as a client may pass for
    [Deleter]: a struct with a member [int tag = 0] and a call operator taking a raw pointer. *)
Record tagged_delete : Type := TaggedDelete { tag : Z }.

#[export] Instance tagged_delete_policy : DeletionPolicy tagged_delete :=
  TaggedDelete 0.

(** ** Control blocks, worlds and computations *)

Record ControlBlock (D : Type) : Type := mkControlBlock {
  strong_ref : Z;      (* strong ref count *)
  weak_ref : Z;        (* weak ref count *)
  deleter : D
}.
Arguments mkControlBlock {D} _ _ _.
Arguments strong_ref {D} _.
Arguments weak_ref {D} _.
Arguments deleter {D} _.

(** The world: the control blocks that are allocated and not yet freed,
    and the DeletionPolicy invocations so far, oldest first. *)
Record world (D : Type) : Type := mkWorld {
  blocks : gmap loc (ControlBlock D);
  fired : list (D * rawptr)
}.
Arguments mkWorld {D} _ _.
Arguments blocks {D} _.
Arguments fired {D} _.

Inductive fault : Type :=
  | NullDeref               (* member access through nullptr *)
  | UseAfterFree            (* member access through a freed control block *)
  | NoMatchingConstructor.  (* an expression that names no declared constructor *)

Inductive outcome (S A : Type) : Type :=
  | Done (a : A) (s : S)
  | Undefined (f : fault).
Arguments Done {S A} _ _.
Arguments Undefined {S A} _.

(** State and fault monad. *)
Definition M (S A : Type) : Type := S -> outcome S A.

Definition ret {S A} (a : A) : M S A := fun s => Done a s.
Definition fail {S A} (f : fault) : M S A := fun _ => Undefined f.
Definition bind {S A B} (m : M S A) (k : A -> M S B) : M S B :=
  fun s => match m s with
           | Done a s' => k a s'
           | Undefined f => Undefined f
           end.

Declare Scope cpp_scope.
Delimit Scope cpp_scope with cpp.
Notation "'let*' x ':=' m 'in' k" := (bind m (fun x => k))
  (at level 10, x pattern, m at level 100, k at level 200) : cpp_scope.
Local Open Scope cpp_scope.

Section ControlBlockMethods.
Context {D : Type} `{DeletionPolicy D}.

(** [cb->member]: the block [cb] points to, with its address. *)
Definition deref (cb : rawptr) : M (world D) (loc * ControlBlock D) :=
  fun w =>
    match cb with
    | None => Undefined NullDeref
    | Some l =>
        match blocks w !! l with
        | Some c => Done (l, c) w
        | None => Undefined UseAfterFree
        end
    end.

Definition store (l : loc) (c : ControlBlock D) : M (world D) unit :=
  fun w => Done tt (mkWorld (<[l := c]> (blocks w)) (fired w)).

(** [delete this] *)
Definition delete_this (l : loc) : M (world D) unit :=
  fun w => Done tt (mkWorld (delete l (blocks w)) (fired w)).

(** [new ControlBlock<T, Deleter>(...)]: a block at an address not in use. *)
Definition new_block (c : ControlBlock D) : M (world D) rawptr :=
  fun w =>
    let l := fresh (dom (blocks w)) in
    Done (Some l) (mkWorld (<[l := c]> (blocks w)) (fired w)).

(** [deleter(ptr)]: one invocation of a DeletionPolicy. *)
Definition invoke (d : D) (p : rawptr) : M (world D) unit :=
  fun w => Done tt (mkWorld (blocks w) (fired w ++ [(d, p)])).

(** [ControlBlock()] and [ControlBlock(Deleter* deleter)]: both
    initialise [strong_ref(1), weak_ref(0)].  The copy constructor of
    line 197 has an empty body and no caller: it gives the counts no
    value, and there is nothing of it to embed. *)
Definition ControlBlock_default : ControlBlock D :=
  mkControlBlock 1 0 default_construct.
Definition ControlBlock_with (d : D) : ControlBlock D :=
  mkControlBlock 1 0 d.

Definition incrementStrongRef (this : rawptr) : M (world D) unit :=
  let* (l, c) := deref this in
  store l (mkControlBlock (size_t (strong_ref c + 1)) (weak_ref c) (deleter c)).

Definition decrementStrongRef (this : rawptr) : M (world D) unit :=
  let* (l, c) := deref this in
  let c' := mkControlBlock (size_t (strong_ref c - 1)) (weak_ref c) (deleter c) in
  let* _ := store l c' in
  if (strong_ref c' =? 0) && (weak_ref c' =? 0) then delete_this l else ret tt.

Definition incrementWeakRef (this : rawptr) : M (world D) unit :=
  let* (l, c) := deref this in
  store l (mkControlBlock (strong_ref c) (size_t (weak_ref c + 1)) (deleter c)).

Definition decrementWeakRef (this : rawptr) : M (world D) unit :=
  let* (l, c) := deref this in
  let c' := mkControlBlock (strong_ref c) (size_t (weak_ref c - 1)) (deleter c) in
  let* _ := store l c' in
  if (strong_ref c' =? 0) && (weak_ref c' =? 0) then delete_this l else ret tt.

Definition getStrongRef (this : rawptr) : M (world D) Z :=
  let* (_, c) := deref this in ret (strong_ref c).
Definition getWeakRef (this : rawptr) : M (world D) Z :=
  let* (_, c) := deref this in ret (weak_ref c).
Definition getDeleter (this : rawptr) : M (world D) D :=
  let* (_, c) := deref this in ret (deleter c).
End ControlBlockMethods.

(** ** MyUniquePtr

    The primary template and the partial specialisation for [T[]] give
    the constructors, [release], [reset], [swap], the destructor and the
    boolean conversion the same bodies; [variant] tells them apart. *)
Module MyUniquePtr.
Record t (v : variant) (D : Type) : Type := mk { ptr : rawptr; deleter : D }.
Arguments mk {v D} _ _.
Arguments ptr {v D} _.
Arguments deleter {v D} _.

Section Methods.
Context {v : variant} {D : Type} `{DeletionPolicy D}.

(** [explicit MyUniquePtr(T* ptr = nullptr) : ptr(ptr)] *)
Definition ctor (p : rawptr) : t v D := mk p default_construct.
(** [explicit MyUniquePtr(T* ptr, Deleter deleter)] *)
Definition ctor_with (p : rawptr) (d : D) : t v D := mk p d.

(** [MyUniquePtr(MyUniquePtr&& other) : ptr(other.ptr) { other.ptr = nullptr; }]:
    the new object, then [other] as the constructor leaves it.  The
    member [deleter] has no initialiser. *)
Definition ctor_move (other : t v D) : t v D * t v D :=
  (mk (ptr other) default_construct, mk nullptr (deleter other)).

Definition get (this : t v D) : rawptr := ptr this.

(** [release()]: the returned pointer, then the object. *)
Definition release (this : t v D) : rawptr * t v D :=
  let releasedPtr := ptr this in
  (releasedPtr, mk nullptr (deleter this)).

Definition reset (this : t v D) (newPtr : rawptr) : M (world D) (t v D) :=
  if negb (rawptr_eqb (ptr this) newPtr) then
    let* _ := invoke (deleter this) (ptr this) in
    ret (mk newPtr (deleter this))
  else ret this.

(** [operator=(MyUniquePtr&& other)]; [alias] is [this == &other]. *)
Definition assign_move (alias : bool) (this other : t v D)
  : M (world D) (t v D * t v D) :=
  if negb alias then
    let* this' := reset this (ptr other) in
    ret (this', mk nullptr (deleter other))
  else ret (this, other).

Definition dtor (this : t v D) : M (world D) unit :=
  let* _ := reset this nullptr in ret tt.

Definition swap (this other : t v D) : t v D * t v D :=
  (mk (ptr other) (deleter this), mk (ptr this) (deleter other)).

Definition operator_bool (this : t v D) : bool :=
  negb (rawptr_eqb (ptr this) nullptr).

(** A client's use of one pointer object between its construction
    and its destruction. *)
Inductive call : Type :=
  | Reset (newPtr : rawptr)
  | Release.

Definition do_call (c : call) (this : t v D) : M (world D) (t v D) :=
  match c with
  | Reset newPtr => reset this newPtr
  | Release => ret (snd (release this))
  end.

Fixpoint do_calls (cs : list call) (this : t v D) : M (world D) (t v D) :=
  match cs with
  | [] => ret this
  | c :: cs' => let* this' := do_call c this in do_calls cs' this'
  end.

Definition lifetime (cs : list call) (this : t v D) : M (world D) unit :=
  let* this' := do_calls cs this in dtor this'.
End Methods.
End MyUniquePtr.

(** ** MySharedPtr *)
Module MySharedPtr.
Record t : Type := mk { cb : rawptr; ptr : rawptr }.

Section Methods.
Context {D : Type} `{DeletionPolicy D}.

(** [MySharedPtr() : ptr(nullptr), cb(nullptr)] *)
Definition ctor_default : t := mk nullptr nullptr.

(** [explicit MySharedPtr(T* ptr) : ptr(ptr), cb(new ControlBlock<T, Deleter>())] *)
Definition ctor_raw (p : rawptr) : M (world D) t :=
  let* c := new_block ControlBlock_default in
  ret (mk c p).

(** The constructor template taking a [T*] and a Deleter initialises the
    pointer member [cb] from a ControlBlock value, not from an address;
    it yields no object and is left out. *)

(** [MySharedPtr(const MySharedPtr& other)] *)
Definition ctor_copy (other : t) : M (world D) t :=
  let this := mk (cb other) (ptr other) in
  let* _ := incrementStrongRef (cb this) in
  ret this.

(** [operator=(const MySharedPtr& other)]; [alias] is [this == &other]. *)
Definition assign_copy (alias : bool) (this other : t) : M (world D) t :=
  if negb alias then
    let this' := mk (cb other) (ptr other) in
    let* _ := incrementStrongRef (cb this') in
    ret this'
  else ret this.

(** [MySharedPtr(MySharedPtr&& other)]: the new object, then [other]. *)
Definition ctor_move (other : t) : t * t :=
  (mk (cb other) (ptr other), mk nullptr nullptr).

Definition assign_move (alias : bool) (this other : t) : t * t :=
  if negb alias then (mk (cb other) (ptr other), mk nullptr nullptr)
  else (this, other).

Definition get (this : t) : rawptr := ptr this.
Definition getCB (this : t) : rawptr := cb this.

Definition use_count (this : t) : M (world D) Z :=
  match cb this with
  | Some _ => getStrongRef (cb this)
  | None => ret 0
  end.

Definition owner_before (this other : t) : M (world D) bool :=
  let* a := getStrongRef (cb this) in
  let* b := getStrongRef (cb other) in
  ret (if a <? b then true else false).

Definition unique (this : t) : M (world D) bool :=
  let* a := getStrongRef (cb this) in
  ret (if a =? 1 then true else false).

(** [reset(T* newPtr = nullptr)]: neither member is assigned, and
    [newPtr] is not used. *)
Definition reset (this : t) (newPtr : rawptr) : M (world D) t :=
  match cb this with
  | Some _ =>
      let* n := use_count this in
      let* _ :=
        (if (size_t (n - 1) =? 0) || rawptr_eqb (cb this) nullptr then
           let* d := getDeleter (cb this) in invoke d (ptr this)
         else ret tt) in
      let* _ := decrementStrongRef (cb this) in
      ret this
  | None => ret this
  end.

Definition dtor (this : t) : M (world D) unit :=
  let* _ := reset this nullptr in ret tt.

Definition operator_bool (this : t) : bool :=
  if negb (rawptr_eqb (get this) nullptr) then true else false.
End Methods.
End MySharedPtr.

(** ** MyWeakPtr *)
Module MyWeakPtr.
Record t : Type := mk { ptr : rawptr; cb : rawptr }.

Section Methods.
Context {D : Type} `{DeletionPolicy D}.

Definition ctor_default : t := mk nullptr nullptr.

(** [explicit MyWeakPtr(const MySharedPtr<T>& shared_ptr)] *)
Definition ctor_shared (shared_ptr : MySharedPtr.t) : M (world D) t :=
  let this := mk (MySharedPtr.get shared_ptr) (MySharedPtr.getCB shared_ptr) in
  let* _ := incrementWeakRef (cb this) in
  ret this.

(** [MyWeakPtr(const MyWeakPtr& other)] *)
Definition ctor_copy (other : t) : M (world D) t :=
  let this := mk (ptr other) (cb other) in
  let* _ := incrementWeakRef (cb this) in
  ret this.

(** [operator=(const MyWeakPtr& other)]; [alias] is [this == &other].
    The increment goes through [cb] before [cb] is assigned. *)
Definition assign_copy (alias : bool) (this other : t) : M (world D) t :=
  if negb alias then
    let* _ := incrementWeakRef (cb this) in
    ret (mk (ptr other) (cb other))
  else ret this.

Definition reset (this : t) : M (world D) t :=
  let* _ := decrementWeakRef (cb this) in
  ret (mk nullptr nullptr).

(** [operator=(const MySharedPtr<T>& shared_ptr)] *)
Definition assign_shared (this : t) (shared_ptr : MySharedPtr.t) : M (world D) t :=
  if rawptr_eqb (MySharedPtr.get shared_ptr) nullptr then reset this
  else
    let this' := mk (MySharedPtr.get shared_ptr) (MySharedPtr.getCB shared_ptr) in
    let* _ := incrementWeakRef (cb this') in
    ret this'.

Definition dtor (this : t) : M (world D) unit :=
  let* _ := reset this in ret tt.

Definition expired (this : t) : M (world D) bool :=
  let* n := getStrongRef (cb this) in ret (n =? 0).

Definition operator_bool (this : t) : M (world D) bool :=
  let* e := expired this in ret (negb e).

(** The expression [MySharedPtr<T>( *this )] of [lock].  MySharedPtr
    declares five constructors: no argument, a [T*], a [T*] with a
    Deleter, [const MySharedPtr&] and [MySharedPtr&&]; MyWeakPtr
    converts to [bool] only.  None of them takes a MyWeakPtr, so the
    expression names no constructor. *)
Definition MySharedPtr_of_weak (this : t) : M (world D) MySharedPtr.t :=
  fail NoMatchingConstructor.

(** [return expired() ? MySharedPtr<T>() : MySharedPtr<T>( *this );]
    The body of [lock] is this one conditional expression.  Its
    operands are resolved where the member is instantiated, that is
    where it is called, and before any of it runs; the third operand
    names no constructor, so the expression has no meaning whichever
    operand the condition would select.  A call of [lock] therefore
    never reaches [expired()] and hands back no MySharedPtr, in any
    world and on any object: the missing constructor comes first. *)
Definition lock (this : t) : M (world D) MySharedPtr.t :=
  let* from_weak := MySharedPtr_of_weak this in
  let* e := expired this in
  if e then ret MySharedPtr.ctor_default else ret from_weak.

Definition use_count (this : t) : M (world D) Z :=
  match cb this with
  | Some _ => getStrongRef (cb this)
  | None => ret 0
  end.
End Methods.
End MyWeakPtr.

(** ** Widget

    The node hierarchy of the second header, which uses the pointers:
    a Widget holds a MyWeakPtr to its parent and a vector of
    MyUniquePtr to its children.  Widget objects live in a store of
    their own, by address, next to the world of control blocks; the
    policy of all pointers involved is [default_delete<Widget>].
    Destroying a Widget runs [delete] on its children, which the
    record of policy calls kept by the world does not execute; the
    destructor is therefore not embedded. *)
Module Widget.
(** The two concrete classes; Widget itself is abstract. *)
Inductive cls : Type := TabWidget | CalendarWidget.

Record t : Type := mk {
  parent : MyWeakPtr.t;
  children : list (MyUniquePtr.t Scalar (default_delete Scalar));
  class : cls
}.

Record scene : Type := mkScene {
  memory : world (default_delete Scalar);
  widgets : gmap loc t
}.

(** A member function of the pointers, run on the control blocks of
    the scene. *)
Definition on_memory {A : Type} (m : M (world (default_delete Scalar)) A)
  : M scene A :=
  fun sc =>
    match m (memory sc) with
    | Done a w => Done a (mkScene w (widgets sc))
    | Undefined f => Undefined f
    end.

(** [MySharedPtr::operator->] *)
Definition operator_arrow (s : MySharedPtr.t) : rawptr := MySharedPtr.ptr s.

(** [addChild(Widget* child)], called through a [Widget*]:
    [children.emplace_back(child)] builds a MyUniquePtr from the raw
    pointer at the end of the vector. *)
Definition addChild (this : rawptr) (child : rawptr) : M scene unit :=
  fun sc =>
    match this with
    | None => Undefined NullDeref
    | Some a =>
        match widgets sc !! a with
        | Some wd =>
            Done tt (mkScene (memory sc)
                             (<[a := mk (parent wd)
                                        (children wd ++ [MyUniquePtr.ctor child])
                                        (class wd)]> (widgets sc)))
        | None => Undefined UseAfterFree
        end
    end.

(** [Widget(const MySharedPtr<Widget>& parent) : parent(parent)
    { parent->addChild(this); }] for the object at [this]; in the body
    [parent] is the constructor's argument.  [TabWidget(parent)] and
    [CalendarWidget(parent)] forward to it and add nothing; [k] is the
    class under construction. *)
Definition ctor (k : cls) (this : loc) (parent_arg : MySharedPtr.t) : M scene unit :=
  let* weak := on_memory (MyWeakPtr.ctor_shared parent_arg) in
  let* _ := (fun sc => Done tt (mkScene (memory sc)
                                        (<[this := mk weak [] k]> (widgets sc)))) in
  addChild (operator_arrow parent_arg) (Some this).

Definition getParent (wd : t) : MyWeakPtr.t := parent wd.
Definition getChildren (wd : t) : list (MyUniquePtr.t Scalar (default_delete Scalar)) :=
  children wd.
Definition getType (wd : t) : string :=
  match class wd with
  | TabWidget => "TabWidget"
  | CalendarWidget => "CalendarWidget"
  end.

(** Children constructed one after the other for the same parent. *)
Fixpoint ctor_all (k : cls) (addrs : list loc) (parent_arg : MySharedPtr.t)
  : M scene unit :=
  match addrs with
  | [] => ret tt
  | a :: addrs' => let* _ := ctor k a parent_arg in ctor_all k addrs' parent_arg
  end.
End Widget.

(** A scene for the runs below: one widget at address 10, without
    parent, held by an owner whose control block is at address 1. *)
Definition scene_with_root : Widget.scene :=
  Widget.mkScene
    (mkWorld {[ 1%positive := mkControlBlock 1 0 DefaultDelete ]} [])
    {[ 10%positive := Widget.mk MyWeakPtr.ctor_default [] Widget.TabWidget ]}.

(** ** A client of MyUniquePtr

    The objects a client has alive, by name, and the raw pointers
    [release()] has handed back to it.  Its statements: a new object
    for a raw pointer, a new object move-constructed from a live one,
    move assignment and [swap] between two live objects (possibly the
    same one), [reset()], [release()], and an object going out of
    scope.  A statement that names an object that does not exist is no
    statement of the client and is skipped. *)
Record holder (v : variant) (D : Type) : Type := mkHolder {
  objects : gmap nat (MyUniquePtr.t v D);
  taken : list rawptr
}.
Arguments mkHolder {v D} _ _.
Arguments objects {v D} _.
Arguments taken {v D} _.

Inductive unique_op : Type :=
  | UMake (p : loc)
  | UMoveCtor (i : nat)
  | UMoveAssign (i j : nat)
  | UReset (i : nat)
  | URelease (i : nat)
  | USwap (i j : nat)
  | UDrop (i : nat).

Section HolderRuns.
Context {v : variant} {D : Type} `{DeletionPolicy D}.

Definition holder_step (op : unique_op) (h : holder v D) : M (world D) (holder v D) :=
  match op with
  | UMake p =>
      ret (mkHolder (<[fresh (dom (objects h)) := MyUniquePtr.ctor (Some p)]> (objects h))
                    (taken h))
  | UMoveCtor i =>
      match objects h !! i with
      | Some other =>
          let r := MyUniquePtr.ctor_move other in
          let m := <[i := snd r]> (objects h) in
          ret (mkHolder (<[fresh (dom m) := fst r]> m) (taken h))
      | None => ret h
      end
  | UMoveAssign i j =>
      match objects h !! i, objects h !! j with
      | Some this, Some other =>
          let* r := MyUniquePtr.assign_move (bool_decide (i = j)) this other in
          ret (mkHolder (<[i := fst r]> (<[j := snd r]> (objects h))) (taken h))
      | _, _ => ret h
      end
  | UReset i =>
      match objects h !! i with
      | Some this =>
          let* this' := MyUniquePtr.reset this nullptr in
          ret (mkHolder (<[i := this']> (objects h)) (taken h))
      | None => ret h
      end
  | URelease i =>
      match objects h !! i with
      | Some this =>
          let r := MyUniquePtr.release this in
          ret (mkHolder (<[i := snd r]> (objects h)) (taken h ++ [fst r]))
      | None => ret h
      end
  | USwap i j =>
      match objects h !! i, objects h !! j with
      | Some this, Some other =>
          let r := MyUniquePtr.swap this other in
          ret (mkHolder (<[i := fst r]> (<[j := snd r]> (objects h))) (taken h))
      | _, _ => ret h
      end
  | UDrop i =>
      match objects h !! i with
      | Some this =>
          let* _ := MyUniquePtr.dtor this in
          ret (mkHolder (delete i (objects h)) (taken h))
      | None => ret h
      end
  end.

Fixpoint holder_run (ops : list unique_op) (h : holder v D) : M (world D) (holder v D) :=
  match ops with
  | [] => ret h
  | op :: ops' => let* h' := holder_step op h in holder_run ops' h'
  end.

(** The resources the live objects hold, the resources handed back by
    [release()], the resources a policy was called on, and the
    resources the statements made objects for. *)
Definition held_in (m : gmap nat (MyUniquePtr.t v D)) : list loc :=
  omap (fun e => MyUniquePtr.ptr (snd e)) (map_to_list m).
Definition held (h : holder v D) : list loc := held_in (objects h).
Definition handed_back (h : holder v D) : list loc := omap id (taken h).
Definition freed (w : world D) : list loc := omap snd (fired w).
Fixpoint made (ops : list unique_op) : list loc :=
  match ops with
  | [] => []
  | UMake p :: ops' => p :: made ops'
  | _ :: ops' => made ops'
  end.
End HolderRuns.

(** ** Calls, observations and clients

    What the properties below speak about: the calls pointers make on a
    control block, the invocations of a policy on one resource, and
    clients that copy and destroy shared pointers. *)

(** The calls a pointer makes on its control block. *)
Inductive cb_call : Type := IncStrong | DecStrong | IncWeak | DecWeak.

Definition is_decrement (k : cb_call) : bool :=
  match k with DecStrong | DecWeak => true | IncStrong | IncWeak => false end.

Section Clients.
Context {D : Type} `{DeletionPolicy D}.

Definition run_call (k : cb_call) (this : rawptr) : M (world D) unit :=
  match k with
  | IncStrong => incrementStrongRef this
  | DecStrong => decrementStrongRef this
  | IncWeak => incrementWeakRef this
  | DecWeak => decrementWeakRef this
  end.

(** The counts a call leaves in the block, whether or not the block
    survives the call. *)
Definition cb_after (k : cb_call) (c : ControlBlock D) : ControlBlock D :=
  match k with
  | IncStrong => mkControlBlock (size_t (strong_ref c + 1)) (weak_ref c) (deleter c)
  | DecStrong => mkControlBlock (size_t (strong_ref c - 1)) (weak_ref c) (deleter c)
  | IncWeak => mkControlBlock (strong_ref c) (size_t (weak_ref c + 1)) (deleter c)
  | DecWeak => mkControlBlock (strong_ref c) (size_t (weak_ref c - 1)) (deleter c)
  end.

Definition both_zero (c : ControlBlock D) : bool :=
  (strong_ref c =? 0) && (weak_ref c =? 0).

(** Counters are [size_t] values, and an increment does not wrap. *)
Definition in_range (k : cb_call) (c : ControlBlock D) : Prop :=
  0 <= strong_ref c < 2 ^ SIZE_WIDTH /\ 0 <= weak_ref c < 2 ^ SIZE_WIDTH /\
  match k with
  | IncStrong => strong_ref c + 1 < 2 ^ SIZE_WIDTH
  | IncWeak => weak_ref c + 1 < 2 ^ SIZE_WIDTH
  | DecStrong | DecWeak => True
  end.



End Clients.

(** The invocations of a policy on [p] in a list of invocations. *)
Definition fired_on {D : Type} (p : rawptr) (log : list (D * rawptr)) : list (D * rawptr) :=
  filter (fun e => snd e = p) log.

(** Concrete worlds for the runs below: no block; one block at
    address 1; two blocks at addresses 1 and 2.  The arguments are the
    strong and weak counts. *)
Definition empty_world : world (default_delete Scalar) := mkWorld ∅ [].

Definition world_one_block (s k : Z) : world (default_delete Scalar) :=
  mkWorld {[ 1%positive := mkControlBlock s k DefaultDelete ]} [].

Definition world_two_blocks (s1 k1 s2 k2 : Z) : world (default_delete Scalar) :=
  mkWorld {[ 1%positive := mkControlBlock s1 k1 DefaultDelete;
             2%positive := mkControlBlock s2 k2 DefaultDelete ]} [].

(** ** A client that constructs, copies and destroys

    The pointer objects a client has alive, and the statements it runs
    on them: an owner made from a raw pointer, an owner or an observer
    copy-constructed from a live one, an observer made from a live
    owner, and an object going out of scope, which runs its destructor
    and ends its life.  A statement that names an object that does not
    exist is no statement of the client and is skipped. *)
Record client : Type := mkClient {
  owners : list MySharedPtr.t;
  observers : list MyWeakPtr.t
}.

Inductive client_op : Type :=
  | NewOwner (p : rawptr)
  | CopyOwner (i : nat)
  | DropOwner (i : nat)
  | NewObserver (i : nat)
  | CopyObserver (j : nat)
  | DropObserver (j : nat).

Section ClientRuns.
Context {D : Type} `{DeletionPolicy D}.

Definition client_step (op : client_op) (cl : client) : M (world D) client :=
  match op with
  | NewOwner p =>
      let* s := MySharedPtr.ctor_raw p in
      ret (mkClient (owners cl ++ [s]) (observers cl))
  | CopyOwner i =>
      match owners cl !! i with
      | Some s =>
          let* s' := MySharedPtr.ctor_copy s in
          ret (mkClient (owners cl ++ [s']) (observers cl))
      | None => ret cl
      end
  | DropOwner i =>
      match owners cl !! i with
      | Some s =>
          let* _ := MySharedPtr.dtor s in
          ret (mkClient (delete i (owners cl)) (observers cl))
      | None => ret cl
      end
  | NewObserver i =>
      match owners cl !! i with
      | Some s =>
          let* o := MyWeakPtr.ctor_shared s in
          ret (mkClient (owners cl) (observers cl ++ [o]))
      | None => ret cl
      end
  | CopyObserver j =>
      match observers cl !! j with
      | Some o =>
          let* o' := MyWeakPtr.ctor_copy o in
          ret (mkClient (owners cl) (observers cl ++ [o']))
      | None => ret cl
      end
  | DropObserver j =>
      match observers cl !! j with
      | Some o =>
          let* _ := MyWeakPtr.dtor o in
          ret (mkClient (owners cl) (delete j (observers cl)))
      | None => ret cl
      end
  end.

Fixpoint client_run (ops : list client_op) (cl : client) : M (world D) client :=
  match ops with
  | [] => ret cl
  | op :: ops' => let* cl' := client_step op cl in client_run ops' cl'
  end.

(** The live owners, and the live observers, of the block at [l]. *)
Definition owners_of (l : loc) (cl : client) : nat :=
  length (filter (fun s => MySharedPtr.cb s = Some l) (owners cl)).
Definition observers_of (l : loc) (cl : client) : nat :=
  length (filter (fun o => MyWeakPtr.cb o = Some l) (observers cl)).

(** A block, or its absence, agrees with [n] live owners and [m] live
    observers. *)
Definition block_ok (b : option (ControlBlock D)) (n m : nat) : Prop :=
  match b with
  | Some c =>
      strong_ref c = Z.of_nat n /\ weak_ref c = Z.of_nat m /\ (0 < n + m)%nat
  | None => n = 0%nat /\ m = 0%nat
  end.

(** The world accounts for the client: every live object has a control
    block, and every address holds a block exactly when some live
    object refers to it, with the strong count the number of its live
    owners and the weak count the number of its live observers. *)
Definition accounted (cl : client) (w : world D) : Prop :=
  Forall (fun s => is_Some (MySharedPtr.cb s)) (owners cl) /\
  Forall (fun o => is_Some (MyWeakPtr.cb o)) (observers cl) /\
  forall l : loc, block_ok (blocks w !! l) (owners_of l cl) (observers_of l cl).

(** The policy call a statement of the client is expected to make:
    one, with the policy of the block, on the raw pointer of an owner
    that goes out of scope as the last owner of its block; none
    otherwise. *)
Definition last_owner_release (op : client_op) (cl : client) (w : world D)
  : list (D * rawptr) :=
  match op with
  | DropOwner i =>
      match owners cl !! i with
      | Some s =>
          match MySharedPtr.cb s with
          | Some l =>
              match blocks w !! l with
              | Some c =>
                  if (owners_of l cl =? 1)%nat
                  then [(deleter c, MySharedPtr.ptr s)] else []
              | None => []
              end
          | None => []
          end
      | None => []
      end
  | _ => []
  end.
(** The owners the client has alive after a statement. *)
Definition next_owners (op : client_op) (cl : client) (w : world D)
  : list MySharedPtr.t :=
  match op with
  | NewOwner p => owners cl ++ [MySharedPtr.mk (Some (fresh (dom (blocks w)))) p]
  | CopyOwner i =>
      match owners cl !! i with
      | Some s => owners cl ++ [s]
      | None => owners cl
      end
  | DropOwner i => delete i (owners cl)
  | _ => owners cl
  end.

(** The raw pointers the statements hand to new owners, in order. *)
Fixpoint new_resources (ops : list client_op) : list rawptr :=
  match ops with
  | [] => []
  | NewOwner p :: ops' => p :: new_resources ops'
  | _ :: ops' => new_resources ops'
  end.

(** The raw pointers a policy has been called on, oldest first. *)
Definition released (w : world D) : list rawptr := snd <$> fired w.

(** The world keeps track of the resources in [created]: none was
    released twice, none that a live owner holds was released, two
    live owners hold the same resource exactly when they share a
    block, and every resource created is either released or held. *)
Definition tracked (created : list rawptr) (cl : client) (w : world D) : Prop :=
  NoDup (released w) /\
  (forall s : MySharedPtr.t, s ∈ owners cl -> MySharedPtr.ptr s ∉ released w) /\
  (forall s s' : MySharedPtr.t, s ∈ owners cl -> s' ∈ owners cl ->
     (MySharedPtr.ptr s = MySharedPtr.ptr s' <-> MySharedPtr.cb s = MySharedPtr.cb s')) /\
  (forall r : rawptr,
     r ∈ created <->
     r ∈ released w \/ exists s : MySharedPtr.t, s ∈ owners cl /\ MySharedPtr.ptr s = r).
End ClientRuns.

(** * Properties *)

(** ** Stepping computations *)

Lemma world_eta {D : Type} (w : world D) : mkWorld (blocks w) (fired w) = w.
Proof. by destruct w. Qed.

Lemma bind_done_inv {S A B : Type} (m : M S A) (k : A -> M S B) (s s' : S) (b : B) :
  bind m k s = Done b s' ->
  exists (a : A) (s1 : S), m s = Done a s1 /\ k a s1 = Done b s'.
Proof. unfold bind. destruct (m s) as [a s1|f]; [eauto|discriminate]. Qed.

Lemma bind_fault {S A B : Type} (m : M S A) (k : A -> M S B) (s : S) (f : fault) :
  m s = Undefined f -> bind m k s = Undefined f.
Proof. unfold bind. by intros ->. Qed.

Lemma size_t_small (z : Z) : 0 <= z < 2 ^ SIZE_WIDTH -> size_t z = z.
Proof. intros Hz. unfold size_t. by apply Z.mod_small. Qed.

Lemma rawptr_eqb_eq (p q : rawptr) : rawptr_eqb p q = true <-> p = q.
Proof. unfold rawptr_eqb. apply bool_decide_eq_true. Qed.

Lemma rawptr_eqb_refl (p : rawptr) : rawptr_eqb p p = true.
Proof. by apply rawptr_eqb_eq. Qed.

Lemma rawptr_eqb_ne (p q : rawptr) : p <> q -> rawptr_eqb p q = false.
Proof. unfold rawptr_eqb. apply bool_decide_eq_false_2. Qed.

Section ControlBlockFacts.
Context {D : Type} `{DeletionPolicy D}.

Lemma deref_live (l : loc) (c : ControlBlock D) (w : world D) :
  blocks w !! l = Some c -> deref (Some l) w = Done (l, c) w.
Proof. intros Hl. unfold deref. by rewrite Hl. Qed.

Lemma deref_null (w : world D) : deref None w = Undefined NullDeref.
Proof. reflexivity. Qed.

Lemma deref_freed (l : loc) (w : world D) :
  blocks w !! l = None -> deref (Some l) w = Undefined UseAfterFree.
Proof. intros Hl. unfold deref. by rewrite Hl. Qed.

Lemma run_call_live (k : cb_call) (l : loc) (c : ControlBlock D) (w : world D) :
  blocks w !! l = Some c ->
  run_call k (Some l) w =
    Done tt (mkWorld (if is_decrement k && both_zero (cb_after k c)
                      then delete l (blocks w)
                      else <[l := cb_after k c]> (blocks w))
                     (fired w)).
Proof.
  intros Hl.
  destruct k; unfold run_call, incrementStrongRef, decrementStrongRef,
    incrementWeakRef, decrementWeakRef, bind;
    rewrite (deref_live l c w Hl); cbn [is_decrement andb cb_after both_zero];
    unfold store, delete_this, ret; try reflexivity.
  - unfold both_zero; cbn [strong_ref weak_ref blocks fired].
    destruct ((size_t (strong_ref c - 1) =? 0) && (weak_ref c =? 0)); [|done].
    cbn [blocks fired]. by rewrite delete_insert_eq.
  - unfold both_zero; cbn [strong_ref weak_ref blocks fired].
    destruct ((strong_ref c =? 0) && (size_t (weak_ref c - 1) =? 0)); [|done].
    cbn [blocks fired]. by rewrite delete_insert_eq.
Qed.

Lemma incrementStrongRef_live (l : loc) (c : ControlBlock D) (w : world D) :
  blocks w !! l = Some c ->
  incrementStrongRef (Some l) w =
    Done tt (mkWorld (<[l := cb_after IncStrong c]> (blocks w)) (fired w)).
Proof. exact (run_call_live IncStrong l c w). Qed.

Lemma incrementWeakRef_live (l : loc) (c : ControlBlock D) (w : world D) :
  blocks w !! l = Some c ->
  incrementWeakRef (Some l) w =
    Done tt (mkWorld (<[l := cb_after IncWeak c]> (blocks w)) (fired w)).
Proof. exact (run_call_live IncWeak l c w). Qed.

Lemma decrementStrongRef_live (l : loc) (c : ControlBlock D) (w : world D) :
  blocks w !! l = Some c ->
  decrementStrongRef (Some l) w =
    Done tt (mkWorld (if both_zero (cb_after DecStrong c)
                      then delete l (blocks w)
                      else <[l := cb_after DecStrong c]> (blocks w))
                     (fired w)).
Proof. exact (run_call_live DecStrong l c w). Qed.

Lemma decrementWeakRef_live (l : loc) (c : ControlBlock D) (w : world D) :
  blocks w !! l = Some c ->
  decrementWeakRef (Some l) w =
    Done tt (mkWorld (if both_zero (cb_after DecWeak c)
                      then delete l (blocks w)
                      else <[l := cb_after DecWeak c]> (blocks w))
                     (fired w)).
Proof. exact (run_call_live DecWeak l c w). Qed.

Lemma getStrongRef_live (l : loc) (c : ControlBlock D) (w : world D) :
  blocks w !! l = Some c -> getStrongRef (Some l) w = Done (strong_ref c) w.
Proof. intros Hl. unfold getStrongRef, bind. by rewrite (deref_live l c w Hl). Qed.

Lemma getDeleter_live (l : loc) (c : ControlBlock D) (w : world D) :
  blocks w !! l = Some c -> getDeleter (Some l) w = Done (deleter c) w.
Proof. intros Hl. unfold getDeleter, bind. by rewrite (deref_live l c w Hl). Qed.
End ControlBlockFacts.

(** ** ControlBlock: creation and self-deletion *)

Section ControlBlockLifetime.
Context {D : Type} `{DeletionPolicy D}.

Lemma both_zero_true (c : ControlBlock D) :
  both_zero c = true <-> strong_ref c = 0 /\ weak_ref c = 0.
Proof. unfold both_zero. rewrite andb_true_iff, !Z.eqb_eq. tauto. Qed.

Lemma increment_not_both_zero (k : cb_call) (c : ControlBlock D) :
  is_decrement k = false -> in_range k c -> both_zero (cb_after k c) = false.
Proof.
  intros Hk (Hs & Hw & Hfit). apply not_true_is_false.
  rewrite both_zero_true. intros [Hs0 Hw0].
  destruct k; try discriminate; cbn [cb_after strong_ref weak_ref] in *.
  - rewrite size_t_small in Hs0 by lia. lia.
  - rewrite size_t_small in Hw0 by lia. lia.
Qed.

(** C3.  Both constructors of ControlBlock start the counts at
    strong_ref = 1 and weak_ref = 0.  A call on a live block touches no
    other block and no DeletionPolicy, and the block is freed by that
    call exactly when the call is a decrement that leaves both counts
    at 0; for size_t counts that do not overflow this is exactly when
    the call leaves both counts at 0.  A call that leaves weak_ref
    above 0 never frees the block. *)
Theorem control_block_freed_exactly_at_joint_zero
    (k : cb_call) (l : loc) (c : ControlBlock D) (d : D) (w : world D) :
  blocks w !! l = Some c ->
  (strong_ref (ControlBlock_default (D := D)) = 1 /\
   weak_ref (ControlBlock_default (D := D)) = 0) /\
  (strong_ref (ControlBlock_with d) = 1 /\ weak_ref (ControlBlock_with d) = 0) /\
  exists w' : world D,
    run_call k (Some l) w = Done tt w' /\
    fired w' = fired w /\
    (forall l' : loc, l' <> l -> blocks w' !! l' = blocks w !! l') /\
    (blocks w' !! l = None \/ blocks w' !! l = Some (cb_after k c)) /\
    (blocks w' !! l = None <->
       is_decrement k = true /\
       strong_ref (cb_after k c) = 0 /\ weak_ref (cb_after k c) = 0) /\
    (in_range k c ->
       (blocks w' !! l = None <->
          strong_ref (cb_after k c) = 0 /\ weak_ref (cb_after k c) = 0)) /\
    (0 < weak_ref (cb_after k c) -> blocks w' !! l = Some (cb_after k c)).
Proof.
  intros Hl. split; [done|]. split; [done|].
  eexists. split; [apply (run_call_live k l c w Hl)|].
  cbn [blocks fired]. split; [done|].
  destruct (is_decrement k && both_zero (cb_after k c)) eqn:Hfree.
  - apply andb_true_iff in Hfree as [Hdec Hzero].
    pose proof (proj1 (both_zero_true _) Hzero) as [Hs Hw].
    rewrite lookup_delete_eq.
    split; [intros l' Hne; by rewrite lookup_delete_ne|].
    split; [by left|]. split; [tauto|]. split; [tauto|]. lia.
  - rewrite lookup_insert_eq.
    assert (Hnz : ~ (is_decrement k = true /\
                     strong_ref (cb_after k c) = 0 /\ weak_ref (cb_after k c) = 0)).
    { intros (Hdec & Hs & Hw). rewrite Hdec in Hfree. cbn in Hfree.
      pose proof (proj2 (both_zero_true (cb_after k c)) (conj Hs Hw)). congruence. }
    split; [intros l' Hne; by rewrite lookup_insert_ne|].
    split; [by right|]. split; [split; [discriminate|tauto]|].
    split; [|done].
    intros Hrange. split; [discriminate|].
    intros [Hs Hw]. destruct (is_decrement k) eqn:Hdec; [tauto|].
    pose proof (increment_not_both_zero k c Hdec Hrange) as Hz.
    pose proof (proj2 (both_zero_true (cb_after k c)) (conj Hs Hw)). congruence.
Qed.
End ControlBlockLifetime.

Lemma control_block_freed_exactly_at_joint_zero_witness :
  blocks (world_one_block 1 0) !! 1%positive = Some (mkControlBlock 1 0 DefaultDelete) /\
  exists w', run_call DecStrong (Some 1%positive) (world_one_block 1 0) = Done tt w' /\
             blocks w' !! 1%positive = None.
Proof.
  split; [reflexivity|].
  destruct (control_block_freed_exactly_at_joint_zero DecStrong 1%positive
              (mkControlBlock 1 0 DefaultDelete) DefaultDelete (world_one_block 1 0)
              eq_refl) as (_ & _ & w' & Hrun & _ & _ & _ & Hiff & _).
  exists w'. split; [exact Hrun|]. apply Hiff. repeat split; reflexivity.
Defined.

(** ** MyUniquePtr: when the DeletionPolicy fires *)

Lemma fired_on_app {D : Type} (p : rawptr) (l1 l2 : list (D * rawptr)) :
  fired_on p (l1 ++ l2) = fired_on p l1 ++ fired_on p l2.
Proof. unfold fired_on. apply filter_app. Qed.

Section UniqueFacts.
Context {v : variant} {D : Type} `{DeletionPolicy D}.
Import MyUniquePtr.

Lemma unique_reset_same (this : t v D) (w : world D) :
  reset this (ptr this) w = Done this w.
Proof. unfold reset. by rewrite rawptr_eqb_refl. Qed.

Lemma unique_reset_other (this : t v D) (newPtr : rawptr) (w : world D) :
  ptr this <> newPtr ->
  reset this newPtr w =
    Done (mk newPtr (deleter this))
         (mkWorld (blocks w) (fired w ++ [(deleter this, ptr this)])).
Proof. intros Hne. unfold reset. by rewrite rawptr_eqb_ne. Qed.

Lemma unique_dtor_empty (d : D) (w : world D) :
  dtor (mk (v := v) nullptr d) w = Done tt w.
Proof. unfold dtor, bind. by rewrite (unique_reset_same (mk nullptr d)). Qed.

Lemma unique_dtor_owning (p : loc) (d : D) (w : world D) :
  dtor (mk (v := v) (Some p) d) w =
    Done tt (mkWorld (blocks w) (fired w ++ [(d, Some p)])).
Proof. unfold dtor, bind. by rewrite (unique_reset_other (mk (Some p) d) nullptr). Qed.

Lemma unique_lifetime_nil (this : t v D) (w : world D) :
  lifetime [] this w = dtor this w.
Proof. reflexivity. Qed.

Lemma unique_lifetime_cons (c : call) (cs : list call) (this : t v D) (w : world D) :
  lifetime (c :: cs) this w =
    match do_call c this w with
    | Done this' w' => lifetime cs this' w'
    | Undefined f => Undefined f
    end.
Proof.
  unfold lifetime, bind; cbn [do_calls]; unfold bind.
  by destruct (do_call c this w).
Qed.

(** Once the object no longer holds [p], nothing a client does with
    it, short of handing [p] back through [reset], fires on [p]. *)
Lemma unique_lifetime_disowned (p : loc) (cs : list call) :
  Forall (fun c => c <> Reset (Some p)) cs ->
  forall (this : t v D) (w : world D),
    ptr this <> Some p ->
    exists extra : list (D * rawptr),
      lifetime cs this w = Done tt (mkWorld (blocks w) (fired w ++ extra)) /\
      fired_on (Some p) extra = [].
Proof.
  induction 1 as [|c cs Hc _ IH]; intros this w Hp.
  - rewrite unique_lifetime_nil. destruct this as [[q|] d].
    + rewrite unique_dtor_owning. eexists. split; [reflexivity|].
      unfold fired_on. cbn. rewrite decide_False; [done|]. cbn in Hp. congruence.
    + rewrite unique_dtor_empty. exists []. by rewrite app_nil_r, world_eta.
  - rewrite unique_lifetime_cons. destruct c as [q|]; cbn [do_call].
    + destruct (decide (ptr this = q)) as [Heq|Hne].
      * subst q. rewrite unique_reset_same. apply (IH this w Hp).
      * assert (Hq : q <> Some p) by congruence.
        rewrite unique_reset_other by done.
        destruct (IH (mk q (deleter this))
                     (mkWorld (blocks w) (fired w ++ [(deleter this, ptr this)])) Hq)
          as (extra & Hrun & Hnone).
        exists ((deleter this, ptr this) :: extra). split.
        -- rewrite Hrun. cbn [blocks fired]. by rewrite <- app_assoc.
        -- change ((deleter this, ptr this) :: extra)
             with ([(deleter this, ptr this)] ++ extra).
           rewrite fired_on_app, Hnone. unfold fired_on. cbn.
           by rewrite decide_False.
    + unfold ret; cbn [release snd]. by apply IH.
Qed.

(** C7.  A MyUniquePtr that wraps the resource [p] with the policy [d]
    fires [d] on [p] at destruction, or at once at [reset()], and
    [release()] fires nothing and hands [p] back.  Over a whole
    lifetime, whatever calls of [reset] and [release] the client makes
    before the destructor runs (never handing [p] back to the
    object), the policy fires on [p] exactly once, with [d], unless
    the first call is [release()], in which case it never fires on
    [p]. *)
Theorem unique_policy_fires_exactly_once
    (p : loc) (d : D) (cs : list call) (w : world D) :
  Forall (fun c => c <> Reset (Some p)) cs ->
  dtor (mk (v := v) (Some p) d) w =
    Done tt (mkWorld (blocks w) (fired w ++ [(d, Some p)])) /\
  reset (mk (v := v) (Some p) d) nullptr w =
    Done (mk nullptr d) (mkWorld (blocks w) (fired w ++ [(d, Some p)])) /\
  release (mk (v := v) (Some p) d) = (Some p, mk nullptr d) /\
  exists extra : list (D * rawptr),
    lifetime cs (mk (v := v) (Some p) d) w =
      Done tt (mkWorld (blocks w) (fired w ++ extra)) /\
    fired_on (Some p) extra =
      match cs with
      | Release :: _ => []
      | _ => [(d, Some p)]
      end.
Proof.
  intros Hcs. split; [apply unique_dtor_owning|].
  split; [by rewrite unique_reset_other|]. split; [done|].
  destruct cs as [|c cs].
  - exists [(d, Some p)]. split.
    + rewrite unique_lifetime_nil. apply unique_dtor_owning.
    + unfold fired_on. cbn. by rewrite decide_True.
  - apply Forall_cons in Hcs as [Hc Hcs].
    rewrite unique_lifetime_cons. destruct c as [q|]; cbn [do_call].
    + assert (Hq : q <> Some p) by congruence.
      rewrite unique_reset_other by (cbn; congruence). cbn [ptr deleter].
      destruct (unique_lifetime_disowned p cs Hcs (mk q d)
                  (mkWorld (blocks w) (fired w ++ [(d, Some p)])) Hq)
        as (extra & Hrun & Hnone).
      exists ((d, Some p) :: extra). split.
      * rewrite Hrun. cbn [blocks fired]. by rewrite <- app_assoc.
      * change ((d, Some p) :: extra) with ([(d, Some p)] ++ extra).
        rewrite fired_on_app, Hnone. unfold fired_on. cbn. by rewrite decide_True.
    + unfold ret; cbn [release snd ptr deleter].
      by apply unique_lifetime_disowned.
Qed.

(** C10.  The move constructor copies only the raw pointer: the new
    object holds the pointer of [other] and a default-constructed
    policy, whatever policy [other] stores; [other] is left empty and
    keeps its policy.  When the new object is destroyed it is the
    default-constructed policy that fires on the resource. *)
Theorem unique_move_ctor_default_policy (other : t v D) (w : world D) :
  let moved := fst (ctor_move other) in
  let source := snd (ctor_move other) in
  ptr moved = ptr other /\
  deleter moved = default_construct /\
  ptr source = nullptr /\
  deleter source = deleter other /\
  (forall p : loc, ptr other = Some p ->
     dtor moved w =
       Done tt (mkWorld (blocks w) (fired w ++ [(default_construct, Some p)]))) /\
  dtor source w = Done tt w.
Proof.
  cbn [ctor_move fst snd ptr deleter].
  split; [reflexivity|]. split; [reflexivity|].
  split; [reflexivity|]. split; [reflexivity|]. split.
  - intros p Hp. rewrite Hp. apply unique_dtor_owning.
  - apply unique_dtor_empty.
Qed.
End UniqueFacts.

Lemma unique_policy_fires_exactly_once_witness :
  Forall (fun c => c <> MyUniquePtr.Reset (Some 7%positive))
         [MyUniquePtr.Reset nullptr; MyUniquePtr.Release] /\
  exists extra : list (default_delete Array * option positive),
    MyUniquePtr.lifetime [MyUniquePtr.Reset nullptr; MyUniquePtr.Release]
      (MyUniquePtr.mk (v := Array) (Some 7%positive) DefaultDelete) (mkWorld ∅ [])
      = Done tt (mkWorld ∅ ([] ++ extra)) /\
    fired_on (Some 7%positive) extra = [(DefaultDelete, Some 7%positive)].
Proof.
  assert (Hcs : Forall (fun c => c <> MyUniquePtr.Reset (Some 7%positive))
                       [MyUniquePtr.Reset nullptr; MyUniquePtr.Release])
    by (repeat constructor; discriminate).
  split; [exact Hcs|].
  destruct (unique_policy_fires_exactly_once (v := Array) (D := default_delete Array)
              7%positive DefaultDelete
              [MyUniquePtr.Reset nullptr; MyUniquePtr.Release] (mkWorld ∅ []) Hcs)
    as (_ & _ & _ & extra & Hrun & Hon).
  exists extra. split; [exact Hrun|exact Hon].
Defined.

(** A pointer that stores the policy with tag 42 is moved from: in
    either variant the new object stores the policy with tag 0. *)
Example unique_move_ctor_drops_tag (v : variant) :
  let other := MyUniquePtr.mk (v := v) (Some 7%positive) (TaggedDelete 42) in
  MyUniquePtr.deleter (fst (MyUniquePtr.ctor_move other)) = TaggedDelete 0 /\
  MyUniquePtr.deleter (fst (MyUniquePtr.ctor_move other)) <> MyUniquePtr.deleter other /\
  MyUniquePtr.dtor (fst (MyUniquePtr.ctor_move other)) (mkWorld ∅ [])
    = Done tt (mkWorld ∅ [(TaggedDelete 0, Some 7%positive)]).
Proof. split; [reflexivity|]. split; [discriminate|reflexivity]. Qed.

(** ** MySharedPtr: counting and release *)

Section SharedFacts.
Context {D : Type} `{DeletionPolicy D}.
Import MySharedPtr.

Lemma shared_ctor_raw_fresh (p : rawptr) (w : world D) :
  ctor_raw p w =
    Done (mk (Some (fresh (dom (blocks w)))) p)
         (mkWorld (<[fresh (dom (blocks w)) := ControlBlock_default]> (blocks w))
                  (fired w)).
Proof. reflexivity. Qed.

Lemma fresh_block_unused (w : world D) : blocks w !! fresh (dom (blocks w)) = None.
Proof. apply not_elem_of_dom, is_fresh. Qed.

Lemma shared_use_count_empty (p : rawptr) (w : world D) :
  use_count (mk nullptr p) w = Done 0 w.
Proof. reflexivity. Qed.

Lemma shared_use_count_live (l : loc) (p : rawptr) (c : ControlBlock D) (w : world D) :
  blocks w !! l = Some c -> use_count (mk (Some l) p) w = Done (strong_ref c) w.
Proof. intros Hl. cbn [use_count cb]. by apply getStrongRef_live. Qed.

Lemma shared_ctor_copy_live (l : loc) (p : rawptr) (c : ControlBlock D) (w : world D) :
  blocks w !! l = Some c ->
  ctor_copy (mk (Some l) p) w =
    Done (mk (Some l) p)
         (mkWorld (<[l := cb_after IncStrong c]> (blocks w)) (fired w)).
Proof.
  intros Hl. unfold ctor_copy, bind; cbn [cb ptr].
  by rewrite (incrementStrongRef_live l c w Hl).
Qed.

Lemma shared_reset_empty (p newPtr : rawptr) (w : world D) :
  reset (mk nullptr p) newPtr w = Done (mk nullptr p) w.
Proof. reflexivity. Qed.

(** [reset] on an object whose control block is live: the policy
    fires when the count read before the decrement is 1, the strong
    count is decremented, and the object keeps both members. *)
Lemma shared_reset_live (l : loc) (p newPtr : rawptr) (c : ControlBlock D) (w : world D) :
  blocks w !! l = Some c ->
  reset (mk (Some l) p) newPtr w =
    Done (mk (Some l) p)
         (mkWorld (if both_zero (cb_after DecStrong c)
                   then delete l (blocks w)
                   else <[l := cb_after DecStrong c]> (blocks w))
                  (fired w ++ if size_t (strong_ref c - 1) =? 0
                              then [(deleter c, p)] else [])).
Proof.
  intros Hl. unfold reset; cbn [cb ptr]. unfold bind at 1.
  rewrite (shared_use_count_live l p c w Hl).
  rewrite (rawptr_eqb_ne (Some l) nullptr) by done. rewrite orb_false_r.
  unfold bind at 1.
  destruct (size_t (strong_ref c - 1) =? 0).
  - unfold bind at 1. rewrite (getDeleter_live l c w Hl). unfold invoke.
    unfold bind.
    by rewrite (decrementStrongRef_live l c
                  (mkWorld (blocks w) (fired w ++ [(deleter c, p)])) Hl).
  - unfold ret at 1. unfold bind. rewrite (decrementStrongRef_live l c w Hl).
    cbn [blocks fired]. by rewrite app_nil_r.
Qed.

Lemma shared_dtor_live (l : loc) (p : rawptr) (c : ControlBlock D) (w : world D) :
  blocks w !! l = Some c ->
  dtor (mk (Some l) p) w =
    Done tt
         (mkWorld (if both_zero (cb_after DecStrong c)
                   then delete l (blocks w)
                   else <[l := cb_after DecStrong c]> (blocks w))
                  (fired w ++ if size_t (strong_ref c - 1) =? 0
                              then [(deleter c, p)] else [])).
Proof.
  intros Hl. unfold dtor, bind. by rewrite (shared_reset_live l p nullptr c w Hl).
Qed.

(** C8.  [use_count()] is 0 for an object without control block and
    the strong count of the control block otherwise.  An object
    constructed from a null raw pointer has a control block of its
    own: its boolean conversion is false and its [use_count()] is the
    strong count of that block, which is 1. *)
Theorem shared_use_count_zero_or_strong_count (p : rawptr) (w : world D) :
  use_count (mk nullptr p) w = Done 0 w /\
  (forall (l : loc) (c : ControlBlock D),
     blocks w !! l = Some c ->
     use_count (mk (Some l) p) w = Done (strong_ref c) w) /\
  exists (s : t) (l : loc) (c : ControlBlock D) (w' : world D),
    ctor_raw nullptr w = Done s w' /\
    cb s = Some l /\ blocks w' !! l = Some c /\
    operator_bool s = false /\
    use_count s w' = Done (strong_ref c) w' /\ strong_ref c = 1.
Proof.
  split; [apply shared_use_count_empty|].
  split; [intros l c Hl; by apply shared_use_count_live|].
  eexists _, _, _, _. split; [apply shared_ctor_raw_fresh|].
  split; [reflexivity|]. split; [cbn [blocks]; apply lookup_insert_eq|].
  split; [reflexivity|]. split; [|reflexivity].
  apply shared_use_count_live. cbn [blocks]. apply lookup_insert_eq.
Qed.
End SharedFacts.

(** ** MySharedPtr: N copies, then N+1 destructions *)

Section SharedCopies.
Context {D : Type} `{DeletionPolicy D}.
Import MySharedPtr.



Lemma shared_dtor_not_last (l : loc) (p : rawptr) (c : ControlBlock D) (w : world D) :
  blocks w !! l = Some c ->
  1 < strong_ref c < 2 ^ SIZE_WIDTH ->
  dtor (mk (Some l) p) w =
    Done tt (mkWorld (<[l := mkControlBlock (strong_ref c - 1) (weak_ref c)
                                            (deleter c)]> (blocks w))
                     (fired w)).
Proof.
  intros Hl Hs. rewrite (shared_dtor_live l p c w Hl).
  unfold both_zero; cbn [cb_after strong_ref weak_ref].
  rewrite size_t_small by lia.
  destruct (Z.eqb_spec (strong_ref c - 1) 0) as [?|_]; [lia|].
  cbn [andb]. by rewrite app_nil_r.
Qed.



End SharedCopies.


(** ** MySharedPtr: [reset] followed by the destructor *)

Section SharedReset.
Context {D : Type} `{DeletionPolicy D}.
Import MySharedPtr.

(** Whatever [reset] does to the control block, the object it is
    called on comes back with the members it had. *)
Lemma shared_reset_keeps_members (this this' : t) (newPtr : rawptr) (w w' : world D) :
  reset this newPtr w = Done this' w' -> this' = this.
Proof.
  unfold reset. destruct (cb this) as [l|]; [|unfold ret; congruence].
  intros Hrun.
  apply bind_done_inv in Hrun as (n & w1 & _ & Hrun).
  apply bind_done_inv in Hrun as (u & w2 & _ & Hrun).
  apply bind_done_inv in Hrun as (u' & w3 & _ & Hrun).
  unfold ret in Hrun. congruence.
Qed.

(** On a live block whose strong count does not wrap, [reset] takes
    the strong count down by one. *)
Lemma shared_reset_decrements (l : loc) (p newPtr : rawptr)
    (c : ControlBlock D) (w : world D) :
  blocks w !! l = Some c ->
  1 < strong_ref c < 2 ^ SIZE_WIDTH ->
  exists w' : world D,
    reset (mk (Some l) p) newPtr w = Done (mk (Some l) p) w' /\
    use_count (mk (Some l) p) w' = Done (strong_ref c - 1) w' /\
    fired w' = fired w.
Proof.
  intros Hl Hs. eexists. split; [apply (shared_reset_live l p newPtr c w Hl)|].
  unfold both_zero; cbn [cb_after strong_ref weak_ref].
  rewrite size_t_small by lia.
  destruct (Z.eqb_spec (strong_ref c - 1) 0) as [?|_]; [lia|].
  cbn [andb fired]. split; [|apply app_nil_r].
  erewrite shared_use_count_live by (cbn [blocks]; apply lookup_insert_eq).
  reflexivity.
Qed.
End SharedReset.

(** C1.  The sequence [A(p); B(A); A.reset(); ~A()] with [p] the
    resource at address 7.  After [A.reset()] the strong count is 1,
    but [A] still holds its control block; the destructor of [A]
    therefore decrements a second time and fires the DeletionPolicy on
    [p] while [B] still owns it, the control block is freed, and
    [B.use_count()] reads freed memory. *)
Theorem shared_reset_then_destructor_decrements_twice :
  let A := MySharedPtr.mk (Some 1%positive) (Some 7%positive) in
  let B := MySharedPtr.mk (Some 1%positive) (Some 7%positive) in
  let released := mkWorld (D := default_delete Scalar) ∅ [(DefaultDelete, Some 7%positive)] in
  (let* A := MySharedPtr.ctor_raw (Some 7%positive) in
   let* B := MySharedPtr.ctor_copy A in
   ret (A, B)) empty_world = Done (A, B) (world_one_block 2 0) /\
  MySharedPtr.use_count B (world_one_block 2 0) = Done 2 (world_one_block 2 0) /\
  MySharedPtr.reset A nullptr (world_one_block 2 0) = Done A (world_one_block 1 0) /\
  MySharedPtr.cb A <> nullptr /\
  MySharedPtr.operator_bool A = true /\
  MySharedPtr.use_count B (world_one_block 1 0) = Done 1 (world_one_block 1 0) /\
  MySharedPtr.dtor A (world_one_block 1 0) = Done tt released /\
  MySharedPtr.use_count B released = Undefined UseAfterFree.
Proof.
  cbv zeta.
  split; [reflexivity|]. split; [reflexivity|]. split; [reflexivity|].
  split; [discriminate|]. split; [reflexivity|]. split; [reflexivity|].
  split; reflexivity.
Qed.

(** ** MySharedPtr: [owner_before] *)

Section OwnerBefore.
Context {D : Type} `{DeletionPolicy D}.
Import MySharedPtr.

Lemma owner_before_live (ls lt : loc) (ps pt : rawptr)
    (cs ct : ControlBlock D) (w : world D) :
  blocks w !! ls = Some cs -> blocks w !! lt = Some ct ->
  owner_before (mk (Some ls) ps) (mk (Some lt) pt) w =
    Done (strong_ref cs <? strong_ref ct) w.
Proof.
  intros Hs Ht. unfold owner_before, bind; cbn [cb].
  rewrite (getStrongRef_live ls cs w Hs), (getStrongRef_live lt ct w Ht).
  unfold ret. by destruct (strong_ref cs <? strong_ref ct).
Qed.

(** C5, as the code has it.  On pointers whose control blocks are
    live, [owner_before] answers whether the strong count of this
    pointer's block is below the strong count of the other's, and
    changes nothing.  Two pointers on one block are not ordered; the
    relation is irreflexive, asymmetric and transitive; two owners are
    left unordered exactly when their strong counts are equal, be
    they the same owner or not; the weak counts play no part. *)
Theorem owner_before_orders_by_strong_count
    (ls lt lu : loc) (ps pt pu : rawptr) (cs ct cu : ControlBlock D) (w : world D) :
  blocks w !! ls = Some cs -> blocks w !! lt = Some ct -> blocks w !! lu = Some cu ->
  let s := mk (Some ls) ps in
  let t := mk (Some lt) pt in
  let u := mk (Some lu) pu in
  owner_before s t w = Done (strong_ref cs <? strong_ref ct) w /\
  (ls = lt -> owner_before s t w = Done false w /\ owner_before t s w = Done false w) /\
  owner_before s s w = Done false w /\
  (owner_before s t w = Done true w -> owner_before t s w = Done false w) /\
  (owner_before s t w = Done true w -> owner_before t u w = Done true w ->
   owner_before s u w = Done true w) /\
  (owner_before s t w = Done false w /\ owner_before t s w = Done false w <->
   strong_ref cs = strong_ref ct).
Proof.
  intros Hs Ht Hu s t u. unfold s, t, u.
  rewrite (owner_before_live ls lt ps pt cs ct w Hs Ht).
  rewrite (owner_before_live lt ls pt ps ct cs w Ht Hs).
  rewrite (owner_before_live ls ls ps ps cs cs w Hs Hs).
  rewrite (owner_before_live lt lu pt pu ct cu w Ht Hu).
  rewrite (owner_before_live ls lu ps pu cs cu w Hs Hu).
  split; [reflexivity|]. split.
  { intros ->. assert (cs = ct) as -> by congruence.
    by rewrite Z.ltb_irrefl. }
  split; [by rewrite Z.ltb_irrefl|]. split.
  { intros Hst. f_equal. apply Z.ltb_ge.
    assert ((strong_ref cs <? strong_ref ct) = true) as Hlt by congruence.
    apply Z.ltb_lt in Hlt. lia. }
  split.
  { intros Hst Htu. f_equal. apply Z.ltb_lt.
    assert ((strong_ref cs <? strong_ref ct) = true) as H1 by congruence.
    assert ((strong_ref ct <? strong_ref cu) = true) as H2 by congruence.
    apply Z.ltb_lt in H1, H2. lia. }
  split.
  - intros [Hst Hts].
    assert ((strong_ref cs <? strong_ref ct) = false) as H1 by congruence.
    assert ((strong_ref ct <? strong_ref cs) = false) as H2 by congruence.
    apply Z.ltb_ge in H1, H2. lia.
  - intros Heq. rewrite Heq, Z.ltb_irrefl. done.
Qed.
End OwnerBefore.

Lemma owner_before_orders_by_strong_count_witness :
  blocks (world_two_blocks 1 0 2 0) !! 1%positive
    = Some (mkControlBlock 1 0 DefaultDelete) /\
  blocks (world_two_blocks 1 0 2 0) !! 2%positive
    = Some (mkControlBlock 2 0 DefaultDelete) /\
  MySharedPtr.owner_before (MySharedPtr.mk (Some 1%positive) (Some 7%positive))
                           (MySharedPtr.mk (Some 2%positive) (Some 8%positive))
                           (world_two_blocks 1 0 2 0)
    = Done true (world_two_blocks 1 0 2 0).
Proof.
  split; [reflexivity|]. split; [reflexivity|].
  exact (proj1 (owner_before_orders_by_strong_count
                  1%positive 2%positive 2%positive
                  (Some 7%positive) (Some 8%positive) (Some 8%positive)
                  (mkControlBlock 1 0 DefaultDelete)
                  (mkControlBlock 2 0 DefaultDelete)
                  (mkControlBlock 2 0 DefaultDelete)
                  (world_two_blocks 1 0 2 0) eq_refl eq_refl eq_refl)).
Defined.

(** C5, as the claim has it, fails.  [s1] and [s2] own different
    resources through different control blocks, both with strong count
    1: neither is before the other, so distinct owners are not
    totally ordered.  One copy of [s2] later, [s1] is before [s2]: the
    answer follows the strong counts. *)
Lemma owner_before_identity_counterexample :
  let s1 := MySharedPtr.mk (Some 1%positive) (Some 7%positive) in
  let s2 := MySharedPtr.mk (Some 2%positive) (Some 8%positive) in
  (let* s1 := MySharedPtr.ctor_raw (Some 7%positive) in
   let* s2 := MySharedPtr.ctor_raw (Some 8%positive) in
   ret (s1, s2)) empty_world = Done (s1, s2) (world_two_blocks 1 0 1 0) /\
  MySharedPtr.cb s1 <> MySharedPtr.cb s2 /\
  MySharedPtr.owner_before s1 s2 (world_two_blocks 1 0 1 0)
    = Done false (world_two_blocks 1 0 1 0) /\
  MySharedPtr.owner_before s2 s1 (world_two_blocks 1 0 1 0)
    = Done false (world_two_blocks 1 0 1 0) /\
  MySharedPtr.ctor_copy s2 (world_two_blocks 1 0 1 0)
    = Done s2 (world_two_blocks 1 0 2 0) /\
  MySharedPtr.owner_before s1 s2 (world_two_blocks 1 0 2 0)
    = Done true (world_two_blocks 1 0 2 0).
Proof.
  cbv zeta.
  split; [reflexivity|]. split; [discriminate|]. split; [reflexivity|].
  split; [reflexivity|]. split; reflexivity.
Qed.

(** ** MyWeakPtr *)

Section WeakFacts.
Context {D : Type} `{DeletionPolicy D}.
Import MyWeakPtr.

Lemma weak_expired_live (l : loc) (p : rawptr) (c : ControlBlock D) (w : world D) :
  blocks w !! l = Some c ->
  expired (mk p (Some l)) w = Done (strong_ref c =? 0) w.
Proof.
  intros Hl. unfold expired, bind; cbn [cb].
  by rewrite (getStrongRef_live l c w Hl).
Qed.

(** [lock] hands back nothing, expired or not, with or without a
    control block: its expression names no constructor. *)
Lemma weak_lock_no_constructor (this : t) (w : world D) :
  lock this w = Undefined NoMatchingConstructor.
Proof. reflexivity. Qed.

(** The copy constructor counts the copy on the block of its source. *)
Lemma weak_ctor_copy_live (l : loc) (p : rawptr) (c : ControlBlock D) (w : world D) :
  blocks w !! l = Some c ->
  ctor_copy (mk p (Some l)) w =
    Done (mk p (Some l))
         (mkWorld (<[l := cb_after IncWeak c]> (blocks w)) (fired w)).
Proof.
  intros Hl. unfold ctor_copy, bind; cbn [cb ptr].
  by rewrite (incrementWeakRef_live l c w Hl).
Qed.

(** Copy assignment counts the copy on the block the destination had
    before, and takes the members of the source. *)
Lemma weak_assign_copy_live (l : loc) (p : rawptr) (other : t)
    (c : ControlBlock D) (w : world D) :
  blocks w !! l = Some c ->
  assign_copy false (mk p (Some l)) other w =
    Done (mk (ptr other) (cb other))
         (mkWorld (<[l := cb_after IncWeak c]> (blocks w)) (fired w)).
Proof.
  intros Hl. unfold assign_copy, bind; cbn [negb cb].
  by rewrite (incrementWeakRef_live l c w Hl).
Qed.

(** C9.  A MyWeakPtr without control block, as the default
    constructor makes it: [expired()], the boolean conversion,
    [reset()] and the destructor all go through the null [cb];
    [use_count()] tests [cb] first and returns 0. *)
Theorem weak_empty_only_use_count_guards (p : rawptr) (w : world D) :
  ctor_default = mk nullptr nullptr /\
  expired (mk p nullptr) w = Undefined NullDeref /\
  operator_bool (mk p nullptr) w = Undefined NullDeref /\
  reset (mk p nullptr) w = Undefined NullDeref /\
  dtor (mk p nullptr) w = Undefined NullDeref /\
  use_count (mk p nullptr) w = Done 0 w.
Proof. repeat split. Qed.
End WeakFacts.

(** C4.  [S(p); W(S); W.lock()] with [p] the resource at address 7:
    [W] holds the control block of [S], whose strong count is 1, so
    [W] is not expired and [lock] should build a MySharedPtr from
    [W]; there is no constructor for it, and no MySharedPtr sharing
    the block comes back. *)
Theorem weak_lock_live_has_no_constructor :
  let S := MySharedPtr.mk (Some 1%positive) (Some 7%positive) in
  let W := MyWeakPtr.mk (Some 7%positive) (Some 1%positive) in
  (let* S := MySharedPtr.ctor_raw (Some 7%positive) in
   let* W := MyWeakPtr.ctor_shared S in
   ret (S, W)) empty_world = Done (S, W) (world_one_block 1 1) /\
  MyWeakPtr.cb W = MySharedPtr.cb S /\
  MySharedPtr.use_count S (world_one_block 1 1) = Done 1 (world_one_block 1 1) /\
  MyWeakPtr.expired W (world_one_block 1 1) = Done false (world_one_block 1 1) /\
  MyWeakPtr.lock W (world_one_block 1 1) = Undefined NoMatchingConstructor.
Proof.
  cbv zeta.
  split; [reflexivity|]. split; [reflexivity|]. split; [reflexivity|].
  split; reflexivity.
Qed.

(** C6.  [S1(p1); S2(p2); W1(S1); W2(S2); W1 = W2]: after the copy
    assignment [W1] has the members of [W2] and so refers to the
    control block of [S2], at address 2, but the weak count of that
    block is still 1, and it is the block of [S1], which [W1] has left,
    whose weak count went up to 2.  The copy constructor, run on [W2]
    in the same world, does take the weak count of the block at
    address 2 to 2.  On a destination without control block the
    assignment goes through a null [cb]. *)
Theorem weak_copy_assign_counts_old_block :
  let S1 := MySharedPtr.mk (Some 1%positive) (Some 7%positive) in
  let S2 := MySharedPtr.mk (Some 2%positive) (Some 8%positive) in
  let W1 := MyWeakPtr.mk (Some 7%positive) (Some 1%positive) in
  let W2 := MyWeakPtr.mk (Some 8%positive) (Some 2%positive) in
  (let* S1 := MySharedPtr.ctor_raw (Some 7%positive) in
   let* S2 := MySharedPtr.ctor_raw (Some 8%positive) in
   let* W1 := MyWeakPtr.ctor_shared S1 in
   let* W2 := MyWeakPtr.ctor_shared S2 in
   ret (S1, S2, W1, W2)) empty_world = Done (S1, S2, W1, W2) (world_two_blocks 1 1 1 1) /\
  MyWeakPtr.assign_copy false W1 W2 (world_two_blocks 1 1 1 1)
    = Done W2 (world_two_blocks 1 2 1 1) /\
  MyWeakPtr.cb W2 = MySharedPtr.cb S2 /\
  MyWeakPtr.ctor_copy W2 (world_two_blocks 1 1 1 1)
    = Done W2 (world_two_blocks 1 1 1 2) /\
  MyWeakPtr.assign_copy false MyWeakPtr.ctor_default W2 (world_two_blocks 1 1 1 1)
    = Undefined NullDeref.
Proof.
  cbv zeta.
  split; [reflexivity|]. split; [reflexivity|]. split; [reflexivity|].
  split; reflexivity.
Qed.


(** * Further properties of the code *)

(** ** ControlBlock: counters *)

Section ControlBlockCounters.
Context {D : Type} `{DeletionPolicy D}.

Lemma control_block_eta (c : ControlBlock D) :
  mkControlBlock (strong_ref c) (weak_ref c) (deleter c) = c.
Proof. by destruct c. Qed.

Lemma world_insert_same (l : loc) (c : ControlBlock D) (w : world D) :
  blocks w !! l = Some c -> mkWorld (<[l := c]> (blocks w)) (fired w) = w.
Proof. intros Hl. rewrite insert_id by done. apply world_eta. Qed.

(** On a live block that is not at (0, 0), an increment followed by
    the matching decrement gives back the world it started from: the
    block is not freed in between and no count drifts, as long as the
    increment does not wrap. *)
Theorem control_block_increment_decrement_round_trip
    (l : loc) (c : ControlBlock D) (w : world D) :
  blocks w !! l = Some c ->
  0 <= strong_ref c -> strong_ref c + 1 < 2 ^ SIZE_WIDTH ->
  0 <= weak_ref c -> weak_ref c + 1 < 2 ^ SIZE_WIDTH ->
  both_zero c = false ->
  (let* _ := incrementStrongRef (Some l) in decrementStrongRef (Some l)) w = Done tt w /\
  (let* _ := incrementWeakRef (Some l) in decrementWeakRef (Some l)) w = Done tt w.
Proof.
  intros Hl Hs0 Hs1 Hk0 Hk1 Hnz. unfold both_zero in Hnz. split.
  - unfold bind. rewrite (incrementStrongRef_live l c w Hl).
    erewrite decrementStrongRef_live by (cbn [blocks]; apply lookup_insert_eq).
    unfold both_zero. cbn [cb_after strong_ref weak_ref deleter blocks fired].
    rewrite (size_t_small (strong_ref c + 1)) by lia.
    replace (strong_ref c + 1 - 1) with (strong_ref c) by lia.
    rewrite size_t_small by lia. rewrite Hnz.
    rewrite insert_insert_eq, control_block_eta. by rewrite world_insert_same.
  - unfold bind. rewrite (incrementWeakRef_live l c w Hl).
    erewrite decrementWeakRef_live by (cbn [blocks]; apply lookup_insert_eq).
    unfold both_zero. cbn [cb_after strong_ref weak_ref deleter blocks fired].
    rewrite (size_t_small (weak_ref c + 1)) by lia.
    replace (weak_ref c + 1 - 1) with (weak_ref c) by lia.
    rewrite size_t_small by lia. rewrite Hnz.
    rewrite insert_insert_eq, control_block_eta. by rewrite world_insert_same.
Qed.

(** A decrement of a count that is already 0 wraps to 2^64 - 1; the
    block is then not at (0, 0) and is not freed, whatever the other
    count is. *)
Theorem control_block_decrement_at_zero_wraps
    (l : loc) (c : ControlBlock D) (w : world D) :
  blocks w !! l = Some c ->
  (strong_ref c = 0 ->
   decrementStrongRef (Some l) w =
     Done tt (mkWorld (<[l := mkControlBlock (2 ^ SIZE_WIDTH - 1) (weak_ref c)
                                             (deleter c)]> (blocks w))
                      (fired w))) /\
  (weak_ref c = 0 ->
   decrementWeakRef (Some l) w =
     Done tt (mkWorld (<[l := mkControlBlock (strong_ref c) (2 ^ SIZE_WIDTH - 1)
                                             (deleter c)]> (blocks w))
                      (fired w))).
Proof.
  intros Hl. split; intros Hz.
  - rewrite (decrementStrongRef_live l c w Hl). unfold both_zero.
    cbn [cb_after strong_ref weak_ref]. rewrite Hz. reflexivity.
  - rewrite (decrementWeakRef_live l c w Hl). unfold both_zero.
    cbn [cb_after strong_ref weak_ref]. rewrite Hz.
    by rewrite andb_false_r.
Qed.
End ControlBlockCounters.

Lemma control_block_increment_decrement_round_trip_witness :
  blocks (world_one_block 1 0) !! 1%positive = Some (mkControlBlock 1 0 DefaultDelete) /\
  (let* _ := incrementStrongRef (Some 1%positive) in decrementStrongRef (Some 1%positive))
    (world_one_block 1 0) = Done tt (world_one_block 1 0).
Proof.
  split; [reflexivity|].
  apply (control_block_increment_decrement_round_trip 1%positive
           (mkControlBlock 1 0 DefaultDelete) (world_one_block 1 0));
    cbn [strong_ref weak_ref]; try reflexivity; lia.
Defined.

Lemma control_block_decrement_at_zero_wraps_witness :
  blocks (world_one_block 0 1) !! 1%positive = Some (mkControlBlock 0 1 DefaultDelete) /\
  decrementStrongRef (Some 1%positive) (world_one_block 0 1)
    = Done tt (world_one_block (2 ^ SIZE_WIDTH - 1) 1).
Proof.
  split; [reflexivity|].
  exact (proj1 (control_block_decrement_at_zero_wraps 1%positive
                  (mkControlBlock 0 1 DefaultDelete) (world_one_block 0 1) eq_refl)
               eq_refl).
Defined.

(** ** MyUniquePtr: move assignment, swap, release and the boolean test *)

Section UniqueFurther.
Context {v : variant} {D : Type} `{DeletionPolicy D}.
Import MyUniquePtr.

Lemma unique_eta (this : t v D) : mk (ptr this) (deleter this) = this.
Proof. by destruct this. Qed.

Lemma unique_reset_cases (this : t v D) (newPtr : rawptr) (w : world D) :
  reset this newPtr w =
    Done (mk newPtr (deleter this))
         (mkWorld (blocks w)
                  (fired w ++ if rawptr_eqb (ptr this) newPtr then []
                              else [(deleter this, ptr this)])).
Proof.
  unfold reset. destruct (rawptr_eqb (ptr this) newPtr) eqn:Heq; cbn [negb].
  - apply rawptr_eqb_eq in Heq as <-. unfold ret.
    by rewrite unique_eta, app_nil_r, world_eta.
  - reflexivity.
Qed.

(** Move assignment between two objects releases what the destination
    held with the destination's own policy (also when it held nothing
    and the source holds something: the policy is then called on
    nullptr), takes the pointer of the source but not its policy, and
    empties the source, whose destructor then fires nothing.  When both
    hold the same pointer nothing fires.  Self-assignment changes
    nothing. *)
Theorem unique_move_assign_releases_destination (this other : t v D) (w : world D) :
  let w' := mkWorld (blocks w)
              (fired w ++ if rawptr_eqb (ptr this) (ptr other) then []
                          else [(deleter this, ptr this)]) in
  assign_move false this other w =
    Done (mk (ptr other) (deleter this), mk nullptr (deleter other)) w' /\
  dtor (mk (v := v) nullptr (deleter other)) w' = Done tt w' /\
  (forall q : loc, ptr other = Some q ->
     dtor (mk (v := v) (ptr other) (deleter this)) w' =
       Done tt (mkWorld (blocks w') (fired w' ++ [(deleter this, Some q)]))) /\
  assign_move true this other w = Done (this, other) w.
Proof.
  cbv zeta. split; [|split; [|split]].
  - unfold assign_move; cbn [negb]. unfold bind.
    by rewrite unique_reset_cases.
  - apply unique_dtor_empty.
  - intros q ->. apply unique_dtor_owning.
  - reflexivity.
Qed.

(** [swap] exchanges the two raw pointers and nothing else: each object
    keeps its own policy, a second swap undoes the first, and
    destroying the two objects after a swap fires each object's policy
    on the resource the other one had. *)
Theorem unique_swap_keeps_policies (this other : t v D) (w : world D) :
  let a := fst (swap this other) in
  let b := snd (swap this other) in
  swap a b = (this, other) /\
  ptr a = ptr other /\ deleter a = deleter this /\
  ptr b = ptr this /\ deleter b = deleter other /\
  (forall p q : loc, ptr this = Some p -> ptr other = Some q ->
     (let* _ := dtor a in dtor b) w =
       Done tt (mkWorld (blocks w)
                        (fired w ++ [(deleter this, Some q); (deleter other, Some p)]))).
Proof.
  cbv zeta. cbn [swap fst snd ptr deleter].
  split; [unfold swap; cbn [ptr deleter]; by rewrite !unique_eta|].
  do 4 (split; [reflexivity|]).
  intros p q -> ->. unfold bind. rewrite unique_dtor_owning, unique_dtor_owning.
  cbn [blocks fired]. by rewrite <- app_assoc.
Qed.

(** [release()] followed by [reset] with the pointer it returned gives
    the object back as it was, but the policy is called once on
    nullptr on the way; on an empty object the round trip calls
    nothing. *)
Theorem unique_release_reset_round_trip (this : t v D) (w : world D) :
  reset (snd (release this)) (fst (release this)) w =
    Done this
         (mkWorld (blocks w)
                  (fired w ++ if operator_bool this then [(deleter this, nullptr)]
                              else [])).
Proof.
  cbn [release fst snd]. rewrite unique_reset_cases. cbn [ptr deleter].
  rewrite unique_eta. unfold operator_bool.
  destruct (ptr this) as [p|].
  - by rewrite !rawptr_eqb_ne.
  - by rewrite !rawptr_eqb_refl.
Qed.

(** The destructor calls the policy exactly when the boolean conversion
    is true, once, on the held pointer; [reset()] and [release()] make
    the conversion false. *)
Theorem unique_destructor_fires_iff_bool (this : t v D) (w : world D) :
  dtor this w =
    Done tt (mkWorld (blocks w)
                     (fired w ++ if operator_bool this then [(deleter this, ptr this)]
                                 else [])) /\
  (forall this' w', reset this nullptr w = Done this' w' -> operator_bool this' = false) /\
  operator_bool (snd (release this)) = false.
Proof.
  split; [|split].
  - unfold dtor, bind. rewrite unique_reset_cases. unfold operator_bool.
    by destruct (rawptr_eqb (ptr this) nullptr).
  - intros this' w'. rewrite unique_reset_cases. intros [= <- _]. reflexivity.
  - reflexivity.
Qed.
End UniqueFurther.

(** ** MySharedPtr: construction, copies, moves and assignment *)

Section SharedFurther.
Context {D : Type} `{DeletionPolicy D}.
Import MySharedPtr.

Lemma shared_eta (this : t) : mk (cb this) (ptr this) = this.
Proof. by destruct this. Qed.

Lemma shared_unique_live (l : loc) (p : rawptr) (c : ControlBlock D) (w : world D) :
  blocks w !! l = Some c -> unique (mk (Some l) p) w = Done (strong_ref c =? 1) w.
Proof.
  intros Hl. unfold unique, bind; cbn [cb]. rewrite (getStrongRef_live l c w Hl).
  unfold ret. by destruct (strong_ref c =? 1).
Qed.

Lemma shared_dtor_empty (p : rawptr) (w : world D) : dtor (mk nullptr p) w = Done tt w.
Proof. reflexivity. Qed.

Lemma bind_ret_unit (m : M (world D) unit) (w : world D) :
  (let* _ := m in ret tt) w = m w.
Proof. unfold bind, ret. by destruct (m w) as [[] w'|f]. Qed.

(** A pointer made from a raw pointer gets a control block at an
    address that was not in use, so no block that existed is touched
    and no policy is called; the new pointer reports [use_count() = 1]
    and [unique()]. *)
Theorem shared_ctor_raw_owns_new_block (p : rawptr) (w : world D) :
  exists (s : t) (l : loc) (w' : world D),
    ctor_raw p w = Done s w' /\
    cb s = Some l /\ ptr s = p /\
    blocks w !! l = None /\
    blocks w' !! l = Some (mkControlBlock 1 0 default_construct) /\
    (forall l' : loc, l' <> l -> blocks w' !! l' = blocks w !! l') /\
    fired w' = fired w /\
    use_count s w' = Done 1 w' /\
    unique s w' = Done true w'.
Proof.
  eexists _, _, _. split; [apply shared_ctor_raw_fresh|].
  cbn [cb ptr blocks fired]. split; [reflexivity|]. split; [reflexivity|].
  split; [apply fresh_block_unused|]. split; [apply lookup_insert_eq|].
  split; [intros l' Hne; by rewrite lookup_insert_ne|]. split; [reflexivity|].
  split.
  - erewrite shared_use_count_live by (cbn [blocks]; apply lookup_insert_eq).
    reflexivity.
  - erewrite shared_unique_live by (cbn [blocks]; apply lookup_insert_eq).
    reflexivity.
Qed.

(** Copying an owner and destroying the copy is a round trip: in
    between both objects report one owner more and neither is
    [unique()]; afterwards the world is the one before the copy.  The
    block must have an owner (strong count at least 1) and the count
    must not wrap. *)
Theorem shared_copy_destroy_round_trip
    (l : loc) (p : rawptr) (c : ControlBlock D) (w : world D) :
  blocks w !! l = Some c ->
  1 <= strong_ref c -> strong_ref c + 1 < 2 ^ SIZE_WIDTH ->
  exists w1 : world D,
    ctor_copy (mk (Some l) p) w = Done (mk (Some l) p) w1 /\
    use_count (mk (Some l) p) w1 = Done (strong_ref c + 1) w1 /\
    unique (mk (Some l) p) w1 = Done false w1 /\
    dtor (mk (Some l) p) w1 = Done tt w.
Proof.
  intros Hl Hlo Hhi. eexists. split; [apply (shared_ctor_copy_live l p c w Hl)|].
  cbn [cb_after]. rewrite size_t_small by lia.
  set (c1 := mkControlBlock (strong_ref c + 1) (weak_ref c) (deleter c)).
  assert (Hl1 : blocks (mkWorld (<[l := c1]> (blocks w)) (fired w)) !! l = Some c1)
    by (cbn [blocks]; apply lookup_insert_eq).
  split; [by rewrite (shared_use_count_live l p c1 _ Hl1)|]. split.
  - rewrite (shared_unique_live l p c1 _ Hl1). cbn [c1 strong_ref].
    destruct (Z.eqb_spec (strong_ref c + 1) 1); [lia|done].
  - rewrite (shared_dtor_not_last l p c1 _ Hl1) by (cbn [c1 strong_ref]; lia).
    cbn [c1 strong_ref weak_ref deleter blocks fired].
    replace (strong_ref c + 1 - 1) with (strong_ref c) by lia.
    rewrite insert_insert_eq, control_block_eta. by rewrite world_insert_same.
Qed.

(** The members of a pointer without control block can be read, and
    the pointer can be reset and destroyed, but it cannot be copied,
    assigned from, asked [unique()] or compared with [owner_before]:
    each of these goes through the null [cb]. *)
Theorem shared_empty_cannot_be_copied (p q : rawptr) (this : t) (w : world D) :
  use_count (mk nullptr p) w = Done 0 w /\
  reset (mk nullptr p) q w = Done (mk nullptr p) w /\
  dtor (mk nullptr p) w = Done tt w /\
  ctor_copy (mk nullptr p) w = Undefined NullDeref /\
  assign_copy false this (mk nullptr p) w = Undefined NullDeref /\
  unique (mk nullptr p) w = Undefined NullDeref /\
  owner_before (mk nullptr p) this w = Undefined NullDeref /\
  (forall (l : loc) (c : ControlBlock D),
     blocks w !! l = Some c ->
     owner_before (mk (Some l) q) (mk nullptr p) w = Undefined NullDeref).
Proof.
  do 7 (split; [reflexivity|]).
  intros l c Hl. unfold owner_before, bind; cbn [cb].
  by rewrite (getStrongRef_live l c w Hl).
Qed.

(** Copy assignment counts the destination on the block of the source
    and does nothing else; the block the destination held before is
    not decremented.  Assigning and then destroying the destination
    therefore leaves the world as it was: the count the destination
    had on its old block stays there after the destination is gone. *)
Theorem shared_copy_assign_never_releases
    (this : t) (l : loc) (p : rawptr) (c : ControlBlock D) (w : world D) :
  blocks w !! l = Some c ->
  1 <= strong_ref c -> strong_ref c + 1 < 2 ^ SIZE_WIDTH ->
  assign_copy false this (mk (Some l) p) w =
    Done (mk (Some l) p)
         (mkWorld (<[l := mkControlBlock (strong_ref c + 1) (weak_ref c) (deleter c)]>
                     (blocks w))
                  (fired w)) /\
  (let* this' := assign_copy false this (mk (Some l) p) in dtor this') w = Done tt w /\
  assign_copy true this (mk (Some l) p) w = Done this w.
Proof.
  intros Hl Hlo Hhi.
  assert (Hassign : assign_copy false this (mk (Some l) p) w =
            Done (mk (Some l) p)
                 (mkWorld (<[l := mkControlBlock (strong_ref c + 1) (weak_ref c)
                                                 (deleter c)]> (blocks w))
                          (fired w))).
  { unfold assign_copy; cbn [negb cb ptr]. unfold bind.
    rewrite (incrementStrongRef_live l c w Hl). cbn [cb_after].
    by rewrite size_t_small by lia. }
  split; [exact Hassign|]. split; [|reflexivity].
  unfold bind. rewrite Hassign.
  set (c1 := mkControlBlock (strong_ref c + 1) (weak_ref c) (deleter c)).
  erewrite (shared_dtor_not_last l p c1); cycle 1.
  - cbn [blocks]. apply lookup_insert_eq.
  - cbn [c1 strong_ref]. lia.
  - cbn [c1 strong_ref weak_ref deleter blocks fired].
    replace (strong_ref c + 1 - 1) with (strong_ref c) by lia.
    rewrite insert_insert_eq, control_block_eta. by rewrite world_insert_same.
Qed.

(** A move hands the members over and empties the source without
    touching any count.  After a move construction, or a move
    assignment between two objects, destroying the destination and the
    source does to the world what destroying the source alone would
    have done before the move: whatever the destination of a move
    assignment held before is not released.  The emptied source
    reports [use_count() = 0] and converts to false. *)
Theorem shared_move_transfers_without_release (this other : t) (w : world D) :
  (let* _ := dtor (fst (ctor_move other)) in dtor (snd (ctor_move other))) w
    = dtor other w /\
  (let* _ := dtor (fst (assign_move false this other)) in
   dtor (snd (assign_move false this other))) w
    = dtor other w /\
  use_count (fst (ctor_move other)) w = use_count other w /\
  use_count (snd (ctor_move other)) w = Done 0 w /\
  operator_bool (snd (assign_move false this other)) = false /\
  assign_move true this other = (this, other).
Proof.
  cbn [ctor_move assign_move negb fst snd]. rewrite shared_eta.
  assert (Hseq : (let* _ := dtor other in dtor (mk nullptr nullptr)) w = dtor other w).
  { unfold bind. destruct (dtor other w) as [[] w'|f]; reflexivity. }
  repeat split; exact Hseq.
Qed.
End SharedFurther.

Lemma shared_copy_destroy_round_trip_witness :
  blocks (world_one_block 1 0) !! 1%positive = Some (mkControlBlock 1 0 DefaultDelete) /\
  (let* s := MySharedPtr.ctor_copy (MySharedPtr.mk (Some 1%positive) (Some 7%positive)) in
   MySharedPtr.dtor s) (world_one_block 1 0) = Done tt (world_one_block 1 0).
Proof.
  split; [reflexivity|].
  assert (Hlo : 1 <= 1) by lia.
  assert (Hhi : 1 + 1 < 2 ^ SIZE_WIDTH) by (vm_compute; reflexivity).
  destruct (shared_copy_destroy_round_trip 1%positive (Some 7%positive)
              (mkControlBlock 1 0 DefaultDelete) (world_one_block 1 0) eq_refl Hlo Hhi)
    as (w1 & Hcopy & _ & _ & Hdtor).
  unfold bind. rewrite Hcopy. exact Hdtor.
Defined.

Lemma shared_copy_assign_never_releases_witness :
  blocks (world_two_blocks 1 0 1 0) !! 2%positive
    = Some (mkControlBlock 1 0 DefaultDelete) /\
  (let* a := MySharedPtr.assign_copy false
               (MySharedPtr.mk (Some 1%positive) (Some 7%positive))
               (MySharedPtr.mk (Some 2%positive) (Some 8%positive)) in
   MySharedPtr.dtor a) (world_two_blocks 1 0 1 0) = Done tt (world_two_blocks 1 0 1 0).
Proof.
  split; [reflexivity|].
  assert (Hlo : 1 <= 1) by lia.
  assert (Hhi : 1 + 1 < 2 ^ SIZE_WIDTH) by (vm_compute; reflexivity).
  destruct (shared_copy_assign_never_releases
              (MySharedPtr.mk (Some 1%positive) (Some 7%positive))
              2%positive (Some 8%positive)
              (mkControlBlock 1 0 DefaultDelete) (world_two_blocks 1 0 1 0) eq_refl
              Hlo Hhi)
    as (_ & Hnet & _).
  exact Hnet.
Defined.

(** ** MySharedPtr: what a release touches *)

Section SharedRelease.
Context {D : Type} `{DeletionPolicy D}.
Import MySharedPtr.

(** The destructor (and [reset]) of a pointer with a live block changes
    that block only, and calls the policy exactly when the strong
    count it finds is 1: then once, with the policy stored in the
    block, on the pointer's own raw pointer. *)
Theorem shared_release_touches_own_block
    (l : loc) (p newPtr : rawptr) (c : ControlBlock D) (w : world D) :
  blocks w !! l = Some c ->
  0 <= strong_ref c < 2 ^ SIZE_WIDTH ->
  exists w' : world D,
    reset (mk (Some l) p) newPtr w = Done (mk (Some l) p) w' /\
    dtor (mk (Some l) p) w = Done tt w' /\
    (forall l' : loc, l' <> l -> blocks w' !! l' = blocks w !! l') /\
    fired w' = fired w ++ (if strong_ref c =? 1 then [(deleter c, p)] else []).
Proof.
  intros Hl Hs. eexists. split; [apply (shared_reset_live l p newPtr c w Hl)|].
  split; [apply (shared_dtor_live l p c w Hl)|]. cbn [blocks fired]. split.
  - intros l' Hne.
    destruct (both_zero (cb_after DecStrong c));
      [by rewrite lookup_delete_ne|by rewrite lookup_insert_ne].
  - f_equal. unfold size_t.
    destruct (Z.eqb_spec (strong_ref c) 1) as [->|Hne]; [reflexivity|].
    destruct (Z.eqb_spec ((strong_ref c - 1) mod 2 ^ SIZE_WIDTH) 0) as [Hz|_];
      [|reflexivity].
    exfalso. destruct (Z.eq_dec (strong_ref c) 0) as [H0|H0].
    + rewrite H0 in Hz. vm_compute in Hz. discriminate.
    + rewrite Z.mod_small in Hz by lia. lia.
Qed.

(** A pointer that is reset and then destroyed, while it is the only
    owner and weak observers keep the block: the [reset] calls the
    policy and takes the strong count to 0, and the destructor
    decrements again, so the count wraps to 2^64 - 1.  No second call
    of the policy happens, but an observer of the block, expired after
    the [reset], is no longer expired after the destructor. *)
Theorem shared_reset_then_destructor_unexpires
    (l : loc) (p : rawptr) (c : ControlBlock D) (w : world D) :
  blocks w !! l = Some c ->
  strong_ref c = 1 -> 0 < weak_ref c ->
  exists w1 w2 : world D,
    reset (mk (Some l) p) nullptr w = Done (mk (Some l) p) w1 /\
    fired w1 = fired w ++ [(deleter c, p)] /\
    MyWeakPtr.expired (MyWeakPtr.mk p (Some l)) w1 = Done true w1 /\
    dtor (mk (Some l) p) w1 = Done tt w2 /\
    fired w2 = fired w1 /\
    use_count (mk (Some l) p) w2 = Done (2 ^ SIZE_WIDTH - 1) w2 /\
    MyWeakPtr.expired (MyWeakPtr.mk p (Some l)) w2 = Done false w2.
Proof.
  intros Hl Hs Hk.
  assert (Hnz : (weak_ref c =? 0) = false) by (apply Z.eqb_neq; lia).
  set (c1 := mkControlBlock 0 (weak_ref c) (deleter c)).
  set (w1 := mkWorld (<[l := c1]> (blocks w)) (fired w ++ [(deleter c, p)])).
  set (c2 := mkControlBlock (2 ^ SIZE_WIDTH - 1) (weak_ref c) (deleter c)).
  set (w2 := mkWorld (<[l := c2]> (blocks w)) (fired w ++ [(deleter c, p)])).
  assert (Hl1 : blocks w1 !! l = Some c1) by (cbn [w1 blocks]; apply lookup_insert_eq).
  assert (Hl2 : blocks w2 !! l = Some c2) by (cbn [w2 blocks]; apply lookup_insert_eq).
  exists w1, w2. split.
  { rewrite (shared_reset_live l p nullptr c w Hl). unfold both_zero.
    cbn [cb_after strong_ref weak_ref]. rewrite Hs, Hnz. reflexivity. }
  split; [reflexivity|]. split.
  { by rewrite (weak_expired_live l p c1 w1 Hl1). }
  split.
  { rewrite (shared_dtor_live l p c1 w1 Hl1). unfold both_zero.
    cbn [cb_after c1 strong_ref weak_ref deleter w1 blocks fired].
    change (size_t (0 - 1)) with (2 ^ SIZE_WIDTH - 1).
    change (2 ^ SIZE_WIDTH - 1 =? 0) with false. cbn [andb].
    by rewrite insert_insert_eq, app_nil_r. }
  split; [reflexivity|]. split.
  { by rewrite (shared_use_count_live l p c2 w2 Hl2). }
  by rewrite (weak_expired_live l p c2 w2 Hl2).
Qed.
End SharedRelease.

Lemma shared_release_touches_own_block_witness :
  blocks (world_two_blocks 1 0 2 0) !! 1%positive
    = Some (mkControlBlock 1 0 DefaultDelete) /\
  exists w' : world (default_delete Scalar),
    MySharedPtr.dtor (MySharedPtr.mk (Some 1%positive) (Some 7%positive))
                     (world_two_blocks 1 0 2 0) = Done tt w' /\
    blocks w' !! 2%positive = Some (mkControlBlock 2 0 DefaultDelete) /\
    fired w' = [(DefaultDelete, Some 7%positive)].
Proof.
  split; [reflexivity|].
  assert (Hs : 0 <= 1 < 2 ^ SIZE_WIDTH) by (vm_compute; split; [discriminate|reflexivity]).
  destruct (shared_release_touches_own_block 1%positive (Some 7%positive) nullptr
              (mkControlBlock 1 0 DefaultDelete) (world_two_blocks 1 0 2 0) eq_refl Hs)
    as (w' & _ & Hdtor & Hframe & Hfired).
  exists w'. split; [exact Hdtor|]. split.
  - rewrite (Hframe 2%positive) by discriminate. reflexivity.
  - exact Hfired.
Defined.

Lemma shared_reset_then_destructor_unexpires_witness :
  blocks (world_one_block 1 1) !! 1%positive = Some (mkControlBlock 1 1 DefaultDelete) /\
  exists w1 w2 : world (default_delete Scalar),
    MySharedPtr.reset (MySharedPtr.mk (Some 1%positive) (Some 7%positive)) nullptr
                      (world_one_block 1 1)
      = Done (MySharedPtr.mk (Some 1%positive) (Some 7%positive)) w1 /\
    MySharedPtr.dtor (MySharedPtr.mk (Some 1%positive) (Some 7%positive)) w1
      = Done tt w2 /\
    MyWeakPtr.expired (MyWeakPtr.mk (Some 7%positive) (Some 1%positive)) w2
      = Done false w2.
Proof.
  split; [reflexivity|].
  assert (Hk : 0 < 1) by lia.
  destruct (shared_reset_then_destructor_unexpires 1%positive (Some 7%positive)
              (mkControlBlock 1 1 DefaultDelete) (world_one_block 1 1) eq_refl eq_refl
              Hk)
    as (w1 & w2 & Hreset & _ & _ & Hdtor & _ & _ & Hexp).
  exists w1, w2. split; [exact Hreset|]. split; [exact Hdtor|exact Hexp].
Defined.

(** ** MyWeakPtr: observing, resetting and assigning *)

Section WeakFurther.
Context {D : Type} `{DeletionPolicy D}.
Import MyWeakPtr.

Lemma weak_ctor_shared_live (l : loc) (p : rawptr) (c : ControlBlock D) (w : world D) :
  blocks w !! l = Some c ->
  ctor_shared (MySharedPtr.mk (Some l) p) w =
    Done (mk p (Some l))
         (mkWorld (<[l := cb_after IncWeak c]> (blocks w)) (fired w)).
Proof.
  intros Hl. unfold ctor_shared, bind; cbn [cb ptr MySharedPtr.get MySharedPtr.getCB
    MySharedPtr.cb MySharedPtr.ptr].
  by rewrite (incrementWeakRef_live l c w Hl).
Qed.

Lemma weak_reset_live (l : loc) (p : rawptr) (c : ControlBlock D) (w : world D) :
  blocks w !! l = Some c ->
  reset (mk p (Some l)) w =
    Done (mk nullptr nullptr)
         (mkWorld (if both_zero (cb_after DecWeak c)
                   then delete l (blocks w)
                   else <[l := cb_after DecWeak c]> (blocks w))
                  (fired w)).
Proof.
  intros Hl. unfold reset, bind; cbn [cb].
  by rewrite (decrementWeakRef_live l c w Hl).
Qed.

Lemma weak_dtor_live (l : loc) (p : rawptr) (c : ControlBlock D) (w : world D) :
  blocks w !! l = Some c ->
  dtor (mk p (Some l)) w =
    Done tt
         (mkWorld (if both_zero (cb_after DecWeak c)
                   then delete l (blocks w)
                   else <[l := cb_after DecWeak c]> (blocks w))
                  (fired w)).
Proof. intros Hl. unfold dtor, bind. by rewrite (weak_reset_live l p c w Hl). Qed.

Lemma weak_unobserve_restores (l : loc) (p : rawptr) (c : ControlBlock D) (w : world D) :
  blocks w !! l = Some c ->
  0 <= weak_ref c -> weak_ref c + 1 < 2 ^ SIZE_WIDTH -> both_zero c = false ->
  dtor (mk p (Some l))
       (mkWorld (<[l := cb_after IncWeak c]> (blocks w)) (fired w)) = Done tt w.
Proof.
  intros Hl Hk0 Hk1 Hnz. unfold both_zero in Hnz.
  erewrite weak_dtor_live by (cbn [blocks]; apply lookup_insert_eq).
  unfold both_zero. cbn [cb_after strong_ref weak_ref deleter blocks fired].
  rewrite (size_t_small (weak_ref c + 1)) by lia.
  replace (weak_ref c + 1 - 1) with (weak_ref c) by lia.
  rewrite size_t_small by lia. rewrite Hnz.
  rewrite insert_insert_eq, control_block_eta. by rewrite world_insert_same.
Qed.

(** Making a weak pointer, from an owner or from another weak pointer
    of the block, and destroying it again is a round trip on the
    world; while the observer exists the owner's [use_count()] is what
    it was, and the observer reports the same number. *)
Theorem weak_observe_unobserve_round_trip
    (l : loc) (p : rawptr) (c : ControlBlock D) (w : world D) :
  blocks w !! l = Some c ->
  0 <= weak_ref c -> weak_ref c + 1 < 2 ^ SIZE_WIDTH -> both_zero c = false ->
  exists w1 : world D,
    ctor_shared (MySharedPtr.mk (Some l) p) w = Done (mk p (Some l)) w1 /\
    ctor_copy (mk p (Some l)) w = Done (mk p (Some l)) w1 /\
    MySharedPtr.use_count (MySharedPtr.mk (Some l) p) w1 = Done (strong_ref c) w1 /\
    use_count (mk p (Some l)) w1 = Done (strong_ref c) w1 /\
    dtor (mk p (Some l)) w1 = Done tt w.
Proof.
  intros Hl Hk0 Hk1 Hnz. eexists.
  split; [apply (weak_ctor_shared_live l p c w Hl)|].
  split; [apply (weak_ctor_copy_live l p c w Hl)|].
  split; [|split].
  - erewrite shared_use_count_live by (cbn [blocks]; apply lookup_insert_eq).
    reflexivity.
  - cbn [use_count cb].
    erewrite getStrongRef_live by (cbn [blocks]; apply lookup_insert_eq).
    reflexivity.
  - by apply weak_unobserve_restores.
Qed.

(** [reset()] leaves a weak pointer without control block.  What
    follows on the same object, be it a second [reset()], [expired()]
    or the destructor, goes through the null [cb]; only [use_count()]
    still answers, with 0. *)
Theorem weak_reset_then_destructor_derefs_null (this this' : t) (w w' : world D) :
  reset this w = Done this' w' ->
  this' = ctor_default /\
  dtor this' w' = Undefined NullDeref /\
  reset this' w' = Undefined NullDeref /\
  expired this' w' = Undefined NullDeref /\
  use_count this' w' = Done 0 w'.
Proof.
  unfold reset at 1. intros Hrun.
  apply bind_done_inv in Hrun as ([] & w1 & _ & Hret).
  unfold ret in Hret. injection Hret as <- <-. repeat split.
Qed.

(** Assigning an owner to a weak pointer.  When the owner holds a
    resource, the weak pointer takes the owner's members and is counted
    on the owner's block; no other block changes, so a block the weak
    pointer observed before keeps counting it.  When the owner's raw
    pointer is null, even with a control block of its own, the
    assignment is a [reset()] of the weak pointer, and on a weak
    pointer without control block that goes through the null [cb]. *)
Theorem weak_assign_shared_registers_only
    (this : t) (l : loc) (r : loc) (c : ControlBlock D) (w : world D) :
  blocks w !! l = Some c ->
  (exists w' : world D,
     assign_shared this (MySharedPtr.mk (Some l) (Some r)) w
       = Done (mk (Some r) (Some l)) w' /\
     blocks w' !! l = Some (cb_after IncWeak c) /\
     (forall l' : loc, l' <> l -> blocks w' !! l' = blocks w !! l') /\
     fired w' = fired w) /\
  assign_shared this (MySharedPtr.mk (Some l) nullptr) w = reset this w /\
  assign_shared (mk (ptr this) nullptr) (MySharedPtr.mk (Some l) nullptr) w
    = Undefined NullDeref.
Proof.
  intros Hl. split; [|split; reflexivity].
  eexists. split.
  - unfold assign_shared; cbn [MySharedPtr.get MySharedPtr.getCB MySharedPtr.cb
      MySharedPtr.ptr]. rewrite rawptr_eqb_ne by done. unfold bind; cbn [cb].
    by rewrite (incrementWeakRef_live l c w Hl).
  - cbn [blocks fired]. split; [apply lookup_insert_eq|].
    split; [intros l' Hne; by rewrite lookup_insert_ne|reflexivity].
Qed.
End WeakFurther.

Lemma weak_observe_unobserve_round_trip_witness :
  blocks (world_one_block 1 0) !! 1%positive = Some (mkControlBlock 1 0 DefaultDelete) /\
  (let* o := MyWeakPtr.ctor_shared (MySharedPtr.mk (Some 1%positive) (Some 7%positive)) in
   MyWeakPtr.dtor o) (world_one_block 1 0) = Done tt (world_one_block 1 0).
Proof.
  split; [reflexivity|].
  assert (Hk0 : 0 <= 0) by lia.
  assert (Hk1 : 0 + 1 < 2 ^ SIZE_WIDTH) by (vm_compute; reflexivity).
  destruct (weak_observe_unobserve_round_trip 1%positive (Some 7%positive)
              (mkControlBlock 1 0 DefaultDelete) (world_one_block 1 0)
              eq_refl Hk0 Hk1 eq_refl)
    as (w1 & Hmake & _ & _ & _ & Hdtor).
  unfold bind. rewrite Hmake. exact Hdtor.
Defined.

Lemma weak_reset_then_destructor_derefs_null_witness :
  MyWeakPtr.reset (MyWeakPtr.mk (Some 7%positive) (Some 1%positive)) (world_one_block 1 1)
    = Done MyWeakPtr.ctor_default (world_one_block 1 0) /\
  MyWeakPtr.dtor MyWeakPtr.ctor_default (world_one_block 1 0) = Undefined NullDeref.
Proof.
  assert (Hreset : MyWeakPtr.reset (MyWeakPtr.mk (Some 7%positive) (Some 1%positive))
                     (world_one_block 1 1)
                   = Done MyWeakPtr.ctor_default (world_one_block 1 0)) by reflexivity.
  split; [exact Hreset|].
  exact (proj1 (proj2 (weak_reset_then_destructor_derefs_null _ _ _ _ Hreset))).
Defined.

Lemma weak_assign_shared_registers_only_witness :
  blocks (world_two_blocks 1 1 1 0) !! 2%positive
    = Some (mkControlBlock 1 0 DefaultDelete) /\
  exists w' : world (default_delete Scalar),
    MyWeakPtr.assign_shared (MyWeakPtr.mk (Some 7%positive) (Some 1%positive))
      (MySharedPtr.mk (Some 2%positive) (Some 8%positive)) (world_two_blocks 1 1 1 0)
      = Done (MyWeakPtr.mk (Some 8%positive) (Some 2%positive)) w' /\
    blocks w' !! 1%positive = Some (mkControlBlock 1 1 DefaultDelete).
Proof.
  split; [reflexivity|].
  destruct (weak_assign_shared_registers_only
              (MyWeakPtr.mk (Some 7%positive) (Some 1%positive))
              2%positive 8%positive (mkControlBlock 1 0 DefaultDelete)
              (world_two_blocks 1 1 1 0) eq_refl)
    as ((w' & Hassign & _ & Hframe & _) & _ & _).
  exists w'. split; [exact Hassign|].
  rewrite (Hframe 1%positive) by discriminate. reflexivity.
Defined.

(** ** A client that constructs, copies and destroys: accounting *)

Lemma list_delete_none {A : Type} (l : list A) (i : nat) :
  l !! i = None -> delete i l = l.
Proof.
  revert i. induction l as [|x l IH]; intros [|i] Hi; cbn in *; try done.
  f_equal. by apply IH.
Qed.

Lemma list_elem_of_delete_other {A : Type} (l : list A) (i : nat) (x y : A) :
  l !! i = Some y -> x ∈ l -> x <> y -> x ∈ delete i l.
Proof.
  intros Hi Hx Hne. rewrite <- (take_drop_middle l i y Hi) in Hx.
  rewrite delete_take_drop. rewrite elem_of_app in *.
  destruct Hx as [Hx|Hx]; [by left|]. apply elem_of_cons in Hx as [->|Hx]; [done|by right].
Qed.

Section Counting.
Context {A : Type} (P : A -> Prop) `{forall x, Decision (P x)}.

Lemma count_snoc (l : list A) (x : A) :
  length (filter P (l ++ [x])) =
    (length (filter P l) + if decide (P x) then 1 else 0)%nat.
Proof.
  rewrite filter_app, length_app, filter_cons, filter_nil.
  by destruct (decide (P x)).
Qed.

Lemma count_delete (l : list A) (i : nat) (x : A) :
  l !! i = Some x ->
  length (filter P l) =
    (length (filter P (delete i l)) + if decide (P x) then 1 else 0)%nat.
Proof.
  intros Hi. rewrite <- (take_drop_middle l i x Hi) at 1.
  rewrite delete_take_drop, !filter_app, !length_app, filter_cons.
  destruct (decide (P x)); cbn [length]; lia.
Qed.
End Counting.

Section ClientAccounting.
Context {D : Type} `{DeletionPolicy D}.

Lemma shared_is_mk (s : MySharedPtr.t) (l : loc) :
  MySharedPtr.cb s = Some l -> s = MySharedPtr.mk (Some l) (MySharedPtr.ptr s).
Proof. destruct s as [c p]. cbn. by intros ->. Qed.

Lemma weak_is_mk (o : MyWeakPtr.t) (l : loc) :
  MyWeakPtr.cb o = Some l -> o = MyWeakPtr.mk (MyWeakPtr.ptr o) (Some l).
Proof. destruct o as [p c]. cbn. by intros ->. Qed.

Lemma owners_of_le (l : loc) (cl : client) : (owners_of l cl <= length (owners cl))%nat.
Proof. apply length_filter. Qed.

Lemma observers_of_le (l : loc) (cl : client) :
  (observers_of l cl <= length (observers cl))%nat.
Proof. apply length_filter. Qed.

Lemma lookup_free_or_store (m : gmap loc (ControlBlock D)) (l0 l : loc)
    (b : bool) (c : ControlBlock D) :
  (if b then delete l0 m else <[l0 := c]> m) !! l =
    if decide (l = l0) then (if b then None else Some c) else m !! l.
Proof.
  destruct (decide (l = l0)) as [->|Hne], b.
  - apply lookup_delete_eq.
  - apply lookup_insert_eq.
  - by apply lookup_delete_ne.
  - by apply lookup_insert_ne.
Qed.

(** What one call does to the agreement between a block and the
    numbers of its live owners and observers. *)
Lemma block_ok_inc_strong (c : ControlBlock D) (n m : nat) :
  block_ok (Some c) n m -> Z.of_nat n + 1 < 2 ^ SIZE_WIDTH ->
  block_ok (Some (cb_after IncStrong c)) (S n) m.
Proof.
  intros (Hs & Hk & _) Hfit. cbn [block_ok cb_after strong_ref weak_ref].
  rewrite size_t_small by lia. repeat split; lia.
Qed.

Lemma block_ok_inc_weak (c : ControlBlock D) (n m : nat) :
  block_ok (Some c) n m -> Z.of_nat m + 1 < 2 ^ SIZE_WIDTH ->
  block_ok (Some (cb_after IncWeak c)) n (S m).
Proof.
  intros (Hs & Hk & _) Hfit. cbn [block_ok cb_after strong_ref weak_ref].
  rewrite size_t_small by lia. repeat split; lia.
Qed.

Lemma block_ok_dec_strong (c : ControlBlock D) (n m : nat) :
  block_ok (Some c) (S n) m -> Z.of_nat n + 1 < 2 ^ SIZE_WIDTH ->
  block_ok (if both_zero (cb_after DecStrong c) then None
            else Some (cb_after DecStrong c)) n m.
Proof.
  intros (Hs & Hk & _) Hfit. unfold both_zero.
  cbn [cb_after strong_ref weak_ref]. rewrite size_t_small by lia.
  destruct (Z.eqb_spec (strong_ref c - 1) 0) as [Hz|Hz];
    destruct (Z.eqb_spec (weak_ref c) 0) as [Hz'|Hz'];
    cbn [andb block_ok strong_ref weak_ref]; repeat split; lia.
Qed.

Lemma block_ok_dec_weak (c : ControlBlock D) (n m : nat) :
  block_ok (Some c) n (S m) -> Z.of_nat m + 1 < 2 ^ SIZE_WIDTH ->
  block_ok (if both_zero (cb_after DecWeak c) then None
            else Some (cb_after DecWeak c)) n m.
Proof.
  intros (Hs & Hk & _) Hfit. unfold both_zero.
  cbn [cb_after strong_ref weak_ref]. rewrite size_t_small by lia.
  destruct (Z.eqb_spec (strong_ref c) 0) as [Hz|Hz];
    destruct (Z.eqb_spec (weak_ref c - 1) 0) as [Hz'|Hz'];
    cbn [andb block_ok strong_ref weak_ref]; repeat split; lia.
Qed.

(** A live owner, or observer, of [l] makes the block at [l] exist. *)
Lemma accounted_owner_block (cl : client) (w : world D) (i : nat) (s : MySharedPtr.t) :
  accounted cl w -> owners cl !! i = Some s ->
  exists (l : loc) (c : ControlBlock D) (n : nat),
    MySharedPtr.cb s = Some l /\ blocks w !! l = Some c /\
    owners_of l cl = S n /\
    owners_of l (mkClient (delete i (owners cl)) (observers cl)) = n /\
    block_ok (Some c) (S n) (observers_of l cl).
Proof.
  intros (Hown & _ & Hacc) Hi.
  assert (Hs : is_Some (MySharedPtr.cb s)).
  { eapply Forall_lookup_1 in Hown; eauto. }
  destruct Hs as [l Hl]. exists l.
  pose proof (count_delete (fun s => MySharedPtr.cb s = Some l) (owners cl) i s Hi)
    as Hcount.
  rewrite decide_True in Hcount by done.
  specialize (Hacc l). unfold owners_of in *. cbn [owners].
  destruct (blocks w !! l) as [c|] eqn:Hb.
  - exists c, (length (filter (fun s => MySharedPtr.cb s = Some l) (delete i (owners cl)))).
    split; [done|]. split; [done|]. split; [lia|]. split; [done|].
    by rewrite Hcount, Nat.add_1_r in Hacc.
  - destruct Hacc as [Hz _]. lia.
Qed.

Lemma accounted_observer_block (cl : client) (w : world D) (j : nat) (o : MyWeakPtr.t) :
  accounted cl w -> observers cl !! j = Some o ->
  exists (l : loc) (c : ControlBlock D) (m : nat),
    MyWeakPtr.cb o = Some l /\ blocks w !! l = Some c /\
    observers_of l cl = S m /\
    observers_of l (mkClient (owners cl) (delete j (observers cl))) = m /\
    block_ok (Some c) (owners_of l cl) (S m).
Proof.
  intros (_ & Hobs & Hacc) Hj.
  assert (Ho : is_Some (MyWeakPtr.cb o)).
  { eapply Forall_lookup_1 in Hobs; eauto. }
  destruct Ho as [l Hl]. exists l.
  pose proof (count_delete (fun o => MyWeakPtr.cb o = Some l) (observers cl) j o Hj)
    as Hcount.
  rewrite decide_True in Hcount by done.
  specialize (Hacc l). unfold observers_of in *. cbn [observers].
  destruct (blocks w !! l) as [c|] eqn:Hb.
  - exists c, (length (filter (fun o => MyWeakPtr.cb o = Some l)
                              (delete j (observers cl)))).
    split; [done|]. split; [done|]. split; [lia|]. split; [done|].
    by rewrite Hcount, Nat.add_1_r in Hacc.
  - destruct Hacc as [_ Hz]. lia.
Qed.
End ClientAccounting.

Section ClientSteps.
Context {D : Type} `{DeletionPolicy D}.

Lemma client_step_accounted (op : client_op) (cl : client) (w : world D) :
  accounted cl w ->
  Z.of_nat (length (owners cl) + length (observers cl)) + 1 < 2 ^ SIZE_WIDTH ->
  exists (cl' : client) (w' : world D),
    client_step op cl w = Done cl' w' /\
    accounted cl' w' /\
    (length (owners cl') + length (observers cl')
       <= length (owners cl) + length (observers cl) + 1)%nat /\
    fired w' = fired w ++ last_owner_release op cl w /\
    owners cl' = next_owners op cl w.
Proof.
  intros Hinv Hfit. pose proof Hinv as (Hown & Hobs & Hacc).
  destruct op as [p|i|i|i|j|j]; cbn [client_step last_owner_release next_owners].
  - (* NewOwner *)
    unfold bind. rewrite shared_ctor_raw_fresh. unfold ret.
    eexists _, _. split; [reflexivity|]. cbn [owners observers blocks fired].
    split; [|split; [rewrite length_app; cbn; lia|split; [by rewrite app_nil_r|reflexivity]]].
    split; [|split; [done|]].
    { apply Forall_app_2; [done|]. apply Forall_singleton. by eexists. }
    intros l. unfold owners_of, observers_of. cbn [owners observers blocks].
    rewrite count_snoc. cbn [MySharedPtr.cb].
    destruct (decide (l = fresh (dom (blocks w)))) as [Heq|Hne].
    + rewrite Heq, lookup_insert_eq, decide_True by done.
      specialize (Hacc (fresh (dom (blocks w)))).
      rewrite (fresh_block_unused w) in Hacc.
      destruct Hacc as [Hn Hm]. unfold owners_of, observers_of in Hn, Hm.
      rewrite Hn, Hm. cbn. repeat split; lia.
    + rewrite lookup_insert_ne by done. rewrite decide_False by congruence.
      rewrite Nat.add_0_r. apply Hacc.
  - (* CopyOwner *)
    destruct (owners cl !! i) as [s|] eqn:Hi.
    2:{ exists cl, w. unfold ret. rewrite app_nil_r. repeat split; try done; lia. }
    destruct (accounted_owner_block cl w i s Hinv Hi) as (l0 & c & n & Hl & Hb & Hn & _ & Hok).
    rewrite (shared_is_mk s l0 Hl). unfold bind.
    rewrite (shared_ctor_copy_live l0 _ c w Hb). unfold ret.
    eexists _, _. split; [reflexivity|]. cbn [owners observers blocks fired].
    split; [|split; [rewrite length_app; cbn; lia|split; [by rewrite app_nil_r|reflexivity]]].
    split; [|split; [done|]].
    { apply Forall_app_2; [done|]. apply Forall_singleton. by eexists. }
    intros l. unfold owners_of, observers_of. cbn [owners observers blocks].
    rewrite count_snoc. cbn [MySharedPtr.cb].
    destruct (decide (l = l0)) as [->|Hne].
    + rewrite lookup_insert_eq, decide_True by done.
      fold (owners_of l0 cl) (observers_of l0 cl). rewrite Hn, Nat.add_1_r.
      apply block_ok_inc_strong; [done|].
      pose proof (owners_of_le l0 cl). lia.
    + rewrite lookup_insert_ne by done. rewrite decide_False by congruence.
      rewrite Nat.add_0_r. apply Hacc.
  - (* DropOwner *)
    destruct (owners cl !! i) as [s|] eqn:Hi.
    2:{ exists cl, w. unfold ret. rewrite app_nil_r, (list_delete_none _ _ Hi).
        repeat split; try done; lia. }
    destruct (accounted_owner_block cl w i s Hinv Hi)
      as (l0 & c & n & Hl & Hb & Hn & Hn' & Hok).
    rewrite Hl, Hb. rewrite (shared_is_mk s l0 Hl). cbn [MySharedPtr.ptr]. unfold bind.
    rewrite (shared_dtor_live l0 _ c w Hb). unfold ret.
    pose proof (owners_of_le l0 cl) as Hle.
    eexists _, _. split; [reflexivity|]. cbn [owners observers blocks fired].
    split; [|split; [|split]].
    + split; [by apply Forall_delete|]. split; [done|].
      intros l. cbn [blocks]. rewrite lookup_free_or_store.
      destruct (decide (l = l0)) as [->|Hne].
      * rewrite Hn'. apply block_ok_dec_strong; [done|lia].
      * pose proof (count_delete (fun s => MySharedPtr.cb s = Some l) (owners cl) i s Hi)
          as Hcount.
        rewrite decide_False in Hcount by congruence.
        unfold owners_of at 1. cbn [owners]. rewrite Nat.add_0_r in Hcount.
        rewrite <- Hcount. apply Hacc.
    + rewrite length_delete by eauto. lia.
    + f_equal. destruct Hok as (Hs & _). rewrite Hs, Hn.
      rewrite size_t_small by lia.
      destruct n as [|n].
      * reflexivity.
      * destruct (Z.eqb_spec (Z.of_nat (S (S n)) - 1) 0); [lia|reflexivity].
    + reflexivity.
  - (* NewObserver *)
    destruct (owners cl !! i) as [s|] eqn:Hi.
    2:{ exists cl, w. unfold ret. rewrite app_nil_r. repeat split; try done; lia. }
    destruct (accounted_owner_block cl w i s Hinv Hi) as (l0 & c & n & Hl & Hb & Hn & _ & Hok).
    rewrite (shared_is_mk s l0 Hl). unfold bind.
    rewrite (weak_ctor_shared_live l0 _ c w Hb). unfold ret.
    eexists _, _. split; [reflexivity|]. cbn [owners observers blocks fired].
    split; [|split; [rewrite length_app; cbn; lia|split; [by rewrite app_nil_r|reflexivity]]].
    split; [done|]. split.
    { apply Forall_app_2; [done|]. apply Forall_singleton. by eexists. }
    intros l. unfold owners_of, observers_of. cbn [owners observers blocks].
    rewrite count_snoc. cbn [MyWeakPtr.cb].
    destruct (decide (l = l0)) as [->|Hne].
    + rewrite lookup_insert_eq, decide_True by done.
      fold (owners_of l0 cl) (observers_of l0 cl). rewrite Hn, Nat.add_1_r.
      apply block_ok_inc_weak; [exact Hok|].
      pose proof (observers_of_le l0 cl). lia.
    + rewrite lookup_insert_ne by done. rewrite decide_False by congruence.
      rewrite Nat.add_0_r. apply Hacc.
  - (* CopyObserver *)
    destruct (observers cl !! j) as [o|] eqn:Hj.
    2:{ exists cl, w. unfold ret. rewrite app_nil_r. repeat split; try done; lia. }
    destruct (accounted_observer_block cl w j o Hinv Hj)
      as (l0 & c & m & Hl & Hb & Hm & _ & Hok).
    rewrite (weak_is_mk o l0 Hl). unfold bind.
    rewrite (weak_ctor_copy_live l0 _ c w Hb). unfold ret.
    eexists _, _. split; [reflexivity|]. cbn [owners observers blocks fired].
    split; [|split; [rewrite length_app; cbn; lia|split; [by rewrite app_nil_r|reflexivity]]].
    split; [done|]. split.
    { apply Forall_app_2; [done|]. apply Forall_singleton. by eexists. }
    intros l. unfold owners_of, observers_of. cbn [owners observers blocks].
    rewrite count_snoc. cbn [MyWeakPtr.cb].
    destruct (decide (l = l0)) as [->|Hne].
    + rewrite lookup_insert_eq, decide_True by done.
      fold (owners_of l0 cl) (observers_of l0 cl). rewrite Hm, Nat.add_1_r.
      apply block_ok_inc_weak; [done|].
      pose proof (observers_of_le l0 cl). lia.
    + rewrite lookup_insert_ne by done. rewrite decide_False by congruence.
      rewrite Nat.add_0_r. apply Hacc.
  - (* DropObserver *)
    destruct (observers cl !! j) as [o|] eqn:Hj.
    2:{ exists cl, w. unfold ret. rewrite app_nil_r. repeat split; try done; lia. }
    destruct (accounted_observer_block cl w j o Hinv Hj)
      as (l0 & c & m & Hl & Hb & Hm & Hm' & Hok).
    rewrite (weak_is_mk o l0 Hl). unfold bind.
    rewrite (weak_dtor_live l0 _ c w Hb). unfold ret.
    pose proof (observers_of_le l0 cl) as Hle.
    eexists _, _. split; [reflexivity|]. cbn [owners observers blocks fired].
    split; [|split; [rewrite length_delete by eauto; lia|split; [by rewrite app_nil_r|reflexivity]]].
    split; [done|]. split; [by apply Forall_delete|].
    intros l. cbn [blocks]. rewrite lookup_free_or_store.
    destruct (decide (l = l0)) as [->|Hne].
    + rewrite Hm'. apply block_ok_dec_weak; [done|lia].
    + pose proof (count_delete (fun o => MyWeakPtr.cb o = Some l) (observers cl) j o Hj)
        as Hcount.
      rewrite decide_False in Hcount by congruence.
      unfold observers_of at 1. cbn [observers]. rewrite Nat.add_0_r in Hcount.
      rewrite <- Hcount. apply Hacc.
Qed.
End ClientSteps.

Section ClientTracking.
Context {D : Type} `{DeletionPolicy D}.

Lemma accounted_owner_has_block (cl : client) (w : world D) (s : MySharedPtr.t) (l : loc) :
  accounted cl w -> s ∈ owners cl -> MySharedPtr.cb s = Some l ->
  is_Some (blocks w !! l).
Proof.
  intros (_ & _ & Hacc) Hs Hl. specialize (Hacc l).
  destruct (blocks w !! l) as [c|]; [by eexists|].
  destruct Hacc as [Hz _]. unfold owners_of in Hz. apply nil_length_inv in Hz.
  exfalso. by eapply (filter_nil_not_elem_of _ _ s Hz).
Qed.

Lemma tracked_same_owners (created : list rawptr) (cl cl' : client) (w w' : world D) :
  tracked created cl w ->
  (forall s : MySharedPtr.t, s ∈ owners cl' <-> s ∈ owners cl) ->
  fired w' = fired w ->
  tracked created cl' w'.
Proof.
  intros (Hnd & Hlive & Hshare & Hall) Hsame Hfired.
  unfold tracked, released in *. rewrite Hfired.
  split; [done|]. split; [intros s Hs; apply Hlive; by apply Hsame|].
  split; [intros s s' Hs Hs'; apply Hshare; by apply Hsame|].
  intros r. rewrite Hall. split; (intros [Hr|(s & Hs & Hr)]; [by left|right]);
    exists s; split; try done; by apply Hsame.
Qed.

Lemma client_step_tracked (op : client_op) (created : list rawptr)
    (cl cl' : client) (w w' : world D) :
  accounted cl w -> tracked created cl w ->
  (forall p : rawptr, op = NewOwner p -> p ∉ created) ->
  owners cl' = next_owners op cl w ->
  fired w' = fired w ++ last_owner_release op cl w ->
  tracked (created ++ new_resources [op]) cl' w'.
Proof.
  intros Hinv Htr Hfresh Hown' Hfired'.
  destruct op as [p|i|i|i|j|j]; cbn [next_owners last_owner_release new_resources] in *.
  - (* NewOwner *)
    destruct Htr as (Hnd & Hlive & Hshare & Hall).
    rewrite app_nil_r in Hfired'.
    assert (Hp_new : p ∉ created) by (by apply Hfresh).
    assert (Hp_rel : p ∉ released w).
    { intros Hin. apply Hp_new, Hall. by left. }
    assert (Hp_held : forall s, s ∈ owners cl -> MySharedPtr.ptr s <> p).
    { intros s Hs Heq. apply Hp_new, Hall. right. by exists s. }
    assert (Hl0 : forall s, s ∈ owners cl ->
                    MySharedPtr.cb s <> Some (fresh (dom (blocks w)))).
    { intros s Hs Hcb.
      destruct (accounted_owner_has_block cl w s _ Hinv Hs Hcb) as [c Hc].
      rewrite fresh_block_unused in Hc. discriminate. }
    unfold tracked, released in *. rewrite Hfired', Hown'.
    split; [done|]. split.
    { intros s Hs. apply elem_of_app in Hs as [Hs|Hs]; [by apply Hlive|].
      apply list_elem_of_singleton in Hs as ->. exact Hp_rel. }
    split.
    { intros s s' Hs Hs'.
      apply elem_of_app in Hs as [Hs|Hs]; apply elem_of_app in Hs' as [Hs'|Hs'].
      - by apply Hshare.
      - apply list_elem_of_singleton in Hs' as ->. cbn.
        split; intros Heq; exfalso; [by eapply Hp_held|by eapply Hl0].
      - apply list_elem_of_singleton in Hs as ->. cbn.
        split; intros Heq; exfalso; [by eapply Hp_held|by eapply Hl0].
      - apply list_elem_of_singleton in Hs as ->.
        apply list_elem_of_singleton in Hs' as ->. done. }
    intros r. rewrite elem_of_app, list_elem_of_singleton, Hall. split.
    + intros [[Hr|(s & Hs & Hr)]| ->].
      * by left.
      * right. exists s. split; [|done]. apply elem_of_app. by left.
      * right. eexists. split; [apply elem_of_app; right; by apply list_elem_of_singleton|].
        reflexivity.
    + intros [Hr|(s & Hs & Hr)]; [by left; left|].
      apply elem_of_app in Hs as [Hs|Hs].
      * left. right. by exists s.
      * apply list_elem_of_singleton in Hs as ->. by right.
  - (* CopyOwner *)
    rewrite !app_nil_r in *.
    apply (tracked_same_owners created cl cl' w w' Htr); [|done].
    intros x. rewrite Hown'. destruct (owners cl !! i) as [s|] eqn:Hi; [|done].
    rewrite elem_of_app, list_elem_of_singleton. split; [|by left].
    intros [Hx| ->]; [done|]. by eapply list_elem_of_lookup_2.
  - (* DropOwner *)
    rewrite app_nil_r.
    destruct (owners cl !! i) as [s|] eqn:Hi.
    2:{ rewrite app_nil_r in Hfired'. rewrite (list_delete_none _ _ Hi) in Hown'.
        apply (tracked_same_owners created cl cl' w w' Htr); [|done].
        intros x. by rewrite Hown'. }
    destruct (accounted_owner_block cl w i s Hinv Hi)
      as (l0 & c & n & Hl & Hb & Hn & Hn' & Hok).
    rewrite Hl, Hb, Hn in Hfired'.
    assert (Hs_in : s ∈ owners cl) by (by eapply list_elem_of_lookup_2).
    destruct Htr as (Hnd & Hlive & Hshare & Hall).
    unfold owners_of in Hn'. cbn [owners] in Hn'.
    unfold tracked, released in *. rewrite Hown'.
    destruct n as [|n].
    + (* the last owner of its block *)
      cbn in Hfired'. rewrite Hfired', fmap_app. cbn [fmap list_fmap snd].
      apply nil_length_inv in Hn'.
      assert (Hgone : forall s', s' ∈ delete i (owners cl) ->
                        MySharedPtr.ptr s' <> MySharedPtr.ptr s).
      { intros s' Hs' Heq.
        assert (Hcb : MySharedPtr.cb s' = Some l0).
        { rewrite <- Hl. apply Hshare; [by eapply list_elem_of_delete_inv|done|done]. }
        by eapply (filter_nil_not_elem_of _ _ s' Hn'). }
      split.
      { apply NoDup_app. split; [done|]. split; [|apply NoDup_singleton].
        intros x Hx Hx'. apply list_elem_of_singleton in Hx' as ->.
        by eapply Hlive. }
      split.
      { intros s' Hs' Hin. apply elem_of_app in Hin as [Hin|Hin].
        - eapply Hlive; [|done]. by eapply list_elem_of_delete_inv.
        - apply list_elem_of_singleton in Hin. by eapply Hgone. }
      split.
      { intros s1 s2 Hs1 Hs2. apply Hshare; by eapply list_elem_of_delete_inv. }
      intros r. rewrite Hall, elem_of_app, list_elem_of_singleton. split.
      * intros [Hr|(s' & Hs' & Hr)]; [by left; left|].
        destruct (decide (r = MySharedPtr.ptr s)) as [->|Hne]; [by left; right|].
        right. exists s'. split; [|done].
        eapply list_elem_of_delete_other; [done|done|]. intros ->. by apply Hne.
      * intros [[Hr| ->]|(s' & Hs' & Hr)]; [by left|right; by exists s|].
        right. exists s'. split; [by eapply list_elem_of_delete_inv|done].
    + (* other owners of the block remain *)
      cbn in Hfired'. rewrite Hfired', app_nil_r.
      assert (Hother : exists s', s' ∈ delete i (owners cl) /\
                                  MySharedPtr.ptr s' = MySharedPtr.ptr s).
      { destruct (filter (fun s => MySharedPtr.cb s = Some l0) (delete i (owners cl)))
          as [|s' rest] eqn:Hfil; [discriminate|].
        assert (Hs' : s' ∈ filter (fun s => MySharedPtr.cb s = Some l0)
                                  (delete i (owners cl)))
          by (rewrite Hfil; apply elem_of_cons; by left).
        apply list_elem_of_filter in Hs' as [Hcb Hs'].
        exists s'. split; [done|].
        apply Hshare; [by eapply list_elem_of_delete_inv|done|congruence]. }
      split; [done|]. split.
      { intros s' Hs'. apply Hlive. by eapply list_elem_of_delete_inv. }
      split.
      { intros s1 s2 Hs1 Hs2. apply Hshare; by eapply list_elem_of_delete_inv. }
      intros r. rewrite Hall. split.
      * intros [Hr|(s' & Hs' & Hr)]; [by left|]. right.
        destruct (decide (MySharedPtr.ptr s' = MySharedPtr.ptr s)) as [Heq|Hne].
        -- destruct Hother as (s'' & Hs'' & Hptr). exists s''. split; [done|congruence].
        -- exists s'. split; [|done].
           eapply list_elem_of_delete_other; [done|done|]. intros ->. by apply Hne.
      * intros [Hr|(s' & Hs' & Hr)]; [by left|]. right. exists s'.
        split; [by eapply list_elem_of_delete_inv|done].
  - (* NewObserver *)
    rewrite !app_nil_r in *.
    apply (tracked_same_owners created cl cl' w w' Htr); [|done].
    intros x. by rewrite Hown'.
  - (* CopyObserver *)
    rewrite !app_nil_r in *.
    apply (tracked_same_owners created cl cl' w w' Htr); [|done].
    intros x. by rewrite Hown'.
  - (* DropObserver *)
    rewrite !app_nil_r in *.
    apply (tracked_same_owners created cl cl' w w' Htr); [|done].
    intros x. by rewrite Hown'.
Qed.
End ClientTracking.

Section ClientRunsAccounted.
Context {D : Type} `{DeletionPolicy D}.

Lemma accounted_empty (w : world D) :
  blocks w = ∅ -> accounted (mkClient [] []) w.
Proof.
  intros Hb. split; [constructor|]. split; [constructor|].
  intros l. rewrite Hb, lookup_empty. by split.
Qed.

Lemma tracked_empty (w : world D) :
  fired w = [] -> tracked [] (mkClient [] []) w.
Proof.
  intros Hf. unfold tracked, released. rewrite Hf. cbn.
  split; [constructor|]. split; [intros s Hs; by apply elem_of_nil in Hs|].
  split; [intros s s' Hs; by apply elem_of_nil in Hs|].
  intros r. split.
  - intros Hr. by apply elem_of_nil in Hr.
  - intros [Hr|(s & Hs & _)]; [done|by apply elem_of_nil in Hs].
Qed.

Lemma new_resources_cons (op : client_op) (ops : list client_op) :
  new_resources (op :: ops) = new_resources [op] ++ new_resources ops.
Proof. by destruct op. Qed.

Lemma client_run_accounted (ops : list client_op) :
  forall (cl : client) (w : world D),
    accounted cl w ->
    Z.of_nat (length (owners cl) + length (observers cl) + length ops)
      < 2 ^ SIZE_WIDTH ->
    exists (cl' : client) (w' : world D),
      client_run ops cl w = Done cl' w' /\ accounted cl' w'.
Proof.
  induction ops as [|op ops IH]; intros cl w Hacc Hfit.
  - by exists cl, w.
  - cbn [client_run length] in *. unfold bind.
    destruct (client_step_accounted op cl w Hacc)
      as (cl1 & w1 & Hstep & Hacc1 & Hlen & _); [lia|].
    rewrite Hstep. apply IH; [done|lia].
Qed.

Lemma client_run_tracked (ops : list client_op) :
  forall (created : list rawptr) (cl : client) (w : world D),
    accounted cl w -> tracked created cl w ->
    NoDup (new_resources ops) ->
    (forall p : rawptr, p ∈ new_resources ops -> p ∉ created) ->
    Z.of_nat (length (owners cl) + length (observers cl) + length ops)
      < 2 ^ SIZE_WIDTH ->
    exists (cl' : client) (w' : world D),
      client_run ops cl w = Done cl' w' /\
      accounted cl' w' /\
      tracked (created ++ new_resources ops) cl' w'.
Proof.
  induction ops as [|op ops IH]; intros created cl w Hacc Htr Hnd Hfresh Hfit.
  - exists cl, w. cbn. by rewrite app_nil_r.
  - cbn [client_run length] in *. unfold bind.
    destruct (client_step_accounted op cl w Hacc)
      as (cl1 & w1 & Hstep & Hacc1 & Hlen & Hfired & Hown); [lia|].
    rewrite Hstep. rewrite new_resources_cons in Hnd.
    assert (Hfresh' : forall p : rawptr,
              p ∈ new_resources [op] ++ new_resources ops -> p ∉ created).
    { intros p Hp. apply Hfresh. by rewrite new_resources_cons. }
    assert (Htr1 : tracked (created ++ new_resources [op]) cl1 w1).
    { apply (client_step_tracked op created cl cl1 w w1 Hacc Htr);
        [|exact Hown|exact Hfired].
      intros p ->. apply Hfresh'. apply elem_of_app. left. cbn. by left. }
    apply NoDup_app in Hnd as (Hnd1 & Hdisj & Hnd2).
    destruct (IH (created ++ new_resources [op]) cl1 w1 Hacc1 Htr1 Hnd2)
      as (cl' & w' & Hrun & Hacc' & Htr').
    + intros p Hp Hin. apply elem_of_app in Hin as [Hin|Hin].
      * eapply Hfresh'; [apply elem_of_app; by right|done].
      * by eapply Hdisj.
    + lia.
    + exists cl', w'. rewrite new_resources_cons, app_assoc. done.
Qed.

(** A client that only constructs owners from raw pointers,
    copy-constructs owners and observers from live ones, makes
    observers from live owners and lets objects go out of scope never
    runs into a null or freed control block.  After every run each
    block's strong and weak counts are the numbers of its live owners
    and observers, a block exists exactly while some live object
    refers to it, and once no object is left no block is left. *)
Theorem client_counts_match_live_objects
    (ops : list client_op) (cl : client) (w : world D) :
  accounted cl w ->
  Z.of_nat (length (owners cl) + length (observers cl) + length ops)
    < 2 ^ SIZE_WIDTH ->
  exists (cl' : client) (w' : world D),
    client_run ops cl w = Done cl' w' /\
    (forall l : loc,
       match blocks w' !! l with
       | Some c =>
           strong_ref c = Z.of_nat (owners_of l cl') /\
           weak_ref c = Z.of_nat (observers_of l cl') /\
           (0 < owners_of l cl' + observers_of l cl')%nat
       | None => owners_of l cl' = 0%nat /\ observers_of l cl' = 0%nat
       end) /\
    (owners cl' = [] -> observers cl' = [] -> blocks w' = ∅).
Proof.
  intros Hacc Hfit.
  destruct (client_run_accounted ops cl w Hacc Hfit) as (cl' & w' & Hrun & Hacc').
  exists cl', w'. split; [done|]. destruct Hacc' as (_ & _ & Hblocks).
  split; [exact Hblocks|].
  intros Ho Hb. apply map_empty. intros l. specialize (Hblocks l).
  destruct (blocks w' !! l) as [c|]; [|done].
  destruct Hblocks as (_ & _ & Hpos). unfold owners_of, observers_of in Hpos.
  rewrite Ho, Hb in Hpos. cbn in Hpos. lia.
Qed.

(** In such a run, when the raw pointers handed to new owners are all
    different, no resource is released twice, no resource that a live
    owner still holds has been released, only resources of the run are
    released, and once no owner is left every resource of the run has
    been released exactly once. *)
Theorem client_releases_each_resource_once (ops : list client_op) (w : world D) :
  blocks w = ∅ -> fired w = [] ->
  NoDup (new_resources ops) ->
  Z.of_nat (length ops) < 2 ^ SIZE_WIDTH ->
  exists (cl' : client) (w' : world D),
    client_run ops (mkClient [] []) w = Done cl' w' /\
    NoDup (released w') /\
    (forall s : MySharedPtr.t, s ∈ owners cl' -> MySharedPtr.ptr s ∉ released w') /\
    (forall r : rawptr, r ∈ released w' -> r ∈ new_resources ops) /\
    (owners cl' = [] -> released w' ≡ₚ new_resources ops).
Proof.
  intros Hb Hf Hnd Hfit.
  destruct (client_run_tracked ops [] (mkClient [] []) w
              (accounted_empty w Hb) (tracked_empty w Hf) Hnd)
    as (cl' & w' & Hrun & _ & Htr).
  { intros p _ Hin. by apply elem_of_nil in Hin. }
  { cbn. lia. }
  exists cl', w'. split; [done|]. cbn [app] in Htr.
  destruct Htr as (Hnd' & Hlive & _ & Hall).
  split; [done|]. split; [done|]. split.
  - intros r Hr. apply Hall. by left.
  - intros Ho. apply NoDup_Permutation; [done|done|].
    intros r. rewrite Hall. split; [by left|].
    intros [Hr|(s & Hs & _)]; [done|]. rewrite Ho in Hs. by apply elem_of_nil in Hs.
Qed.

(** Whatever statement such a client runs, the policy is called only
    when the statement destroys the last live owner of a block, and
    then once, with the policy of that block, on that owner's raw
    pointer. *)
Theorem client_policy_called_for_last_owner
    (op : client_op) (cl : client) (w : world D) :
  accounted cl w ->
  Z.of_nat (length (owners cl) + length (observers cl)) + 1 < 2 ^ SIZE_WIDTH ->
  exists (cl' : client) (w' : world D),
    client_step op cl w = Done cl' w' /\
    fired w' = fired w ++
      match op with
      | DropOwner i =>
          match owners cl !! i with
          | Some s =>
              match MySharedPtr.cb s with
              | Some l =>
                  match blocks w !! l with
                  | Some c =>
                      if (owners_of l cl =? 1)%nat
                      then [(deleter c, MySharedPtr.ptr s)] else []
                  | None => []
                  end
              | None => []
              end
          | None => []
          end
      | _ => []
      end.
Proof.
  intros Hacc Hfit.
  destruct (client_step_accounted op cl w Hacc Hfit)
    as (cl' & w' & Hstep & _ & _ & Hfired & _).
  exists cl', w'. split; [done|]. rewrite Hfired. by destruct op.
Qed.

Lemma accounted_observer_has_block
    (cl : client) (w : world D) (o : MyWeakPtr.t) (l : loc) :
  accounted cl w -> o ∈ observers cl -> MyWeakPtr.cb o = Some l ->
  is_Some (blocks w !! l).
Proof.
  intros (_ & _ & Hacc) Ho Hl. specialize (Hacc l).
  destruct (blocks w !! l) as [c|]; [by eexists|].
  destruct Hacc as [_ Hz]. unfold observers_of in Hz. apply nil_length_inv in Hz.
  exfalso. by eapply (filter_nil_not_elem_of _ _ o Hz).
Qed.

Lemma Z_of_nat_eqb (n m : nat) : (Z.of_nat n =? Z.of_nat m) = (n =? m)%nat.
Proof.
  destruct (Z.eqb_spec (Z.of_nat n) (Z.of_nat m)), (Nat.eqb_spec n m); try done; lia.
Qed.

(** In a world that accounts for the client, what the pointers report
    is the number of live owners: [use_count()] of an owner, and of an
    observer, is the number of live owners of its block, [unique()] is
    true exactly for a sole owner, and an observer is [expired()]
    exactly when its block has no live owner. *)
Theorem client_observers_see_live_owners (cl : client) (w : world D) :
  accounted cl w ->
  (forall (s : MySharedPtr.t) (l : loc),
     s ∈ owners cl -> MySharedPtr.cb s = Some l ->
     MySharedPtr.use_count s w = Done (Z.of_nat (owners_of l cl)) w /\
     MySharedPtr.unique s w = Done (owners_of l cl =? 1)%nat w) /\
  (forall (o : MyWeakPtr.t) (l : loc),
     o ∈ observers cl -> MyWeakPtr.cb o = Some l ->
     MyWeakPtr.use_count o w = Done (Z.of_nat (owners_of l cl)) w /\
     MyWeakPtr.expired o w = Done (owners_of l cl =? 0)%nat w).
Proof.
  intros Hacc. split.
  - intros s l Hs Hl.
    destruct (accounted_owner_has_block cl w s l Hacc Hs Hl) as [c Hc].
    destruct Hacc as (_ & _ & Hblocks). specialize (Hblocks l).
    rewrite Hc in Hblocks. destruct Hblocks as (Hstrong & _).
    rewrite (shared_is_mk s l Hl).
    rewrite (shared_use_count_live l _ c w Hc), (shared_unique_live l _ c w Hc).
    rewrite Hstrong. split; [done|]. f_equal. apply (Z_of_nat_eqb _ 1).
  - intros o l Ho Hl.
    destruct (accounted_observer_has_block cl w o l Hacc Ho Hl) as [c Hc].
    destruct Hacc as (_ & _ & Hblocks). specialize (Hblocks l).
    rewrite Hc in Hblocks. destruct Hblocks as (Hstrong & _).
    rewrite (weak_is_mk o l Hl). split.
    + cbn [MyWeakPtr.use_count MyWeakPtr.cb].
      by rewrite (getStrongRef_live l c w Hc), Hstrong.
    + rewrite (weak_expired_live l _ c w Hc), Hstrong. f_equal.
      apply (Z_of_nat_eqb _ 0).
Qed.
End ClientRunsAccounted.

Lemma accounted_after_run {D : Type} `{DeletionPolicy D}
    (ops : list client_op) (w : world D) (cl' : client) (w' : world D) :
  blocks w = ∅ ->
  Z.of_nat (length ops) < 2 ^ SIZE_WIDTH ->
  client_run ops (mkClient [] []) w = Done cl' w' ->
  accounted cl' w'.
Proof.
  intros Hb Hfit Hrun.
  destruct (client_run_accounted ops (mkClient [] []) w (accounted_empty w Hb))
    as (cl1 & w1 & Hrun1 & Hacc); [cbn; lia|].
  rewrite Hrun in Hrun1. by injection Hrun1 as -> ->.
Qed.

Lemma client_counts_match_live_objects_witness :
  accounted (mkClient [] []) empty_world /\
  exists w' : world (default_delete Scalar),
    client_run [NewOwner (Some 7%positive); CopyOwner 0; NewObserver 0;
                DropOwner 0; DropOwner 0; DropObserver 0]
               (mkClient [] []) empty_world = Done (mkClient [] []) w' /\
    blocks w' = ∅.
Proof.
  assert (Hacc : accounted (mkClient [] []) empty_world)
    by (by apply accounted_empty).
  split; [exact Hacc|].
  assert (Hfit : Z.of_nat (0 + 0 + 6) < 2 ^ SIZE_WIDTH) by (vm_compute; reflexivity).
  destruct (client_counts_match_live_objects
              [NewOwner (Some 7%positive); CopyOwner 0; NewObserver 0;
               DropOwner 0; DropOwner 0; DropObserver 0]
              (mkClient [] []) empty_world Hacc Hfit)
    as (cl' & w' & Hrun & _ & Hempty).
  assert (Hconcrete :
            client_run [NewOwner (Some 7%positive); CopyOwner 0; NewObserver 0;
                        DropOwner 0; DropOwner 0; DropObserver 0]
                       (mkClient [] []) empty_world
            = Done (mkClient [] [])
                   (mkWorld (D := default_delete Scalar) ∅
                            [(DefaultDelete, Some 7%positive)]))
    by reflexivity.
  rewrite Hconcrete in Hrun. injection Hrun as <- <-.
  eexists. split; [reflexivity|]. by apply Hempty.
Defined.

Lemma client_releases_each_resource_once_witness :
  NoDup (new_resources [NewOwner (Some 7%positive); NewOwner (Some 8%positive);
                        CopyOwner 0; DropOwner 0; DropOwner 0; DropOwner 0]) /\
  exists w' : world (default_delete Scalar),
    client_run [NewOwner (Some 7%positive); NewOwner (Some 8%positive);
                CopyOwner 0; DropOwner 0; DropOwner 0; DropOwner 0]
               (mkClient [] []) empty_world = Done (mkClient [] []) w' /\
    released w' ≡ₚ [Some 7%positive; Some 8%positive].
Proof.
  assert (Hnd : NoDup (new_resources
                         [NewOwner (Some 7%positive); NewOwner (Some 8%positive);
                          CopyOwner 0; DropOwner 0; DropOwner 0; DropOwner 0])).
  { cbn. apply NoDup_cons. split; [|apply NoDup_singleton].
    rewrite list_elem_of_singleton. discriminate. }
  split; [exact Hnd|].
  assert (Hfit : Z.of_nat 6 < 2 ^ SIZE_WIDTH) by (vm_compute; reflexivity).
  destruct (client_releases_each_resource_once
              [NewOwner (Some 7%positive); NewOwner (Some 8%positive);
               CopyOwner 0; DropOwner 0; DropOwner 0; DropOwner 0]
              empty_world eq_refl eq_refl Hnd Hfit)
    as (cl' & w' & Hrun & _ & _ & _ & Hall).
  assert (Hconcrete :
            client_run [NewOwner (Some 7%positive); NewOwner (Some 8%positive);
                        CopyOwner 0; DropOwner 0; DropOwner 0; DropOwner 0]
                       (mkClient [] []) empty_world
            = Done (mkClient [] [])
                   (mkWorld (D := default_delete Scalar) ∅
                            [(DefaultDelete, Some 8%positive);
                             (DefaultDelete, Some 7%positive)]))
    by reflexivity.
  rewrite Hconcrete in Hrun. injection Hrun as <- <-.
  eexists. split; [reflexivity|]. by apply Hall.
Defined.

Lemma client_policy_called_for_last_owner_witness :
  accounted (mkClient [MySharedPtr.mk (Some 1%positive) (Some 7%positive)] [])
            (world_one_block 1 0) /\
  exists (cl' : client) (w' : world (default_delete Scalar)),
    client_step (DropOwner 0)
      (mkClient [MySharedPtr.mk (Some 1%positive) (Some 7%positive)] [])
      (world_one_block 1 0) = Done cl' w' /\
    fired w' = [(DefaultDelete, Some 7%positive)].
Proof.
  assert (Hfit1 : Z.of_nat 1 < 2 ^ SIZE_WIDTH) by (vm_compute; reflexivity).
  assert (Hacc : accounted (mkClient [MySharedPtr.mk (Some 1%positive) (Some 7%positive)] [])
                           (world_one_block 1 0)).
  { apply (accounted_after_run [NewOwner (Some 7%positive)] empty_world);
      [reflexivity|exact Hfit1|reflexivity]. }
  split; [exact Hacc|].
  assert (Hfit : Z.of_nat (1 + 0) + 1 < 2 ^ SIZE_WIDTH) by (vm_compute; reflexivity).
  destruct (client_policy_called_for_last_owner (DropOwner 0) _ _ Hacc Hfit)
    as (cl' & w' & Hstep & Hfired).
  exists cl', w'. split; [exact Hstep|exact Hfired].
Defined.

Lemma client_observers_see_live_owners_witness :
  accounted (mkClient [MySharedPtr.mk (Some 1%positive) (Some 7%positive)]
                      [MyWeakPtr.mk (Some 7%positive) (Some 1%positive)])
            (world_one_block 1 1) /\
  MyWeakPtr.expired (MyWeakPtr.mk (Some 7%positive) (Some 1%positive))
                    (world_one_block 1 1) = Done false (world_one_block 1 1) /\
  MySharedPtr.unique (MySharedPtr.mk (Some 1%positive) (Some 7%positive))
                     (world_one_block 1 1) = Done true (world_one_block 1 1).
Proof.
  assert (Hfit : Z.of_nat 2 < 2 ^ SIZE_WIDTH) by (vm_compute; reflexivity).
  assert (Hacc : accounted (mkClient [MySharedPtr.mk (Some 1%positive) (Some 7%positive)]
                                     [MyWeakPtr.mk (Some 7%positive) (Some 1%positive)])
                           (world_one_block 1 1)).
  { apply (accounted_after_run [NewOwner (Some 7%positive); NewObserver 0] empty_world);
      [reflexivity|exact Hfit|reflexivity]. }
  split; [exact Hacc|].
  destruct (client_observers_see_live_owners _ _ Hacc) as [Howners Hobservers].
  split.
  - refine (proj2 (Hobservers (MyWeakPtr.mk (Some 7%positive) (Some 1%positive))
                              1%positive _ eq_refl)).
    apply list_elem_of_singleton. reflexivity.
  - refine (proj2 (Howners (MySharedPtr.mk (Some 1%positive) (Some 7%positive))
                           1%positive _ eq_refl)).
    apply list_elem_of_singleton. reflexivity.
Defined.

(** ** Widget: construction under a parent *)

Section WidgetFacts.
Import Widget.

Lemma widget_ctor_live (k : cls) (this a l : loc)
    (c : ControlBlock (default_delete Scalar)) (pw : Widget.t) (sc : scene) :
  blocks (memory sc) !! l = Some c ->
  widgets sc !! a = Some pw -> a <> this ->
  ctor k this (MySharedPtr.mk (Some l) (Some a)) sc =
    Done tt
      (mkScene
         (mkWorld (<[l := cb_after IncWeak c]> (blocks (memory sc)))
                  (fired (memory sc)))
         (<[a := mk (parent pw)
                    (children pw ++ [MyUniquePtr.mk (Some this) DefaultDelete])
                    (class pw)]>
            (<[this := mk (MyWeakPtr.mk (Some a) (Some l)) [] k]> (widgets sc)))).
Proof.
  intros Hl Ha Hne. unfold ctor. unfold bind at 1. unfold on_memory.
  rewrite (weak_ctor_shared_live l (Some a) c (memory sc) Hl).
  unfold bind. cbn [memory widgets]. unfold addChild, operator_arrow.
  cbn [MySharedPtr.ptr widgets memory].
  rewrite lookup_insert_ne by done. rewrite Ha. reflexivity.
Qed.

(** Constructing a TabWidget or CalendarWidget at [this] under a
    parent that an owner holds: the new widget observes the parent's
    control block, whose weak count goes up by one while the strong
    count, and so the owner's [use_count()], stays as it was; the
    parent widget gets a MyUniquePtr to the new widget at the end of
    its children; the new widget has no children; no other widget, no
    other block and no policy is touched. *)
Theorem widget_ctor_registers_with_parent (k : cls) (this a l : loc)
    (c : ControlBlock (default_delete Scalar)) (pw : Widget.t) (sc : scene) :
  blocks (memory sc) !! l = Some c ->
  widgets sc !! a = Some pw -> a <> this ->
  exists sc' : scene,
    ctor k this (MySharedPtr.mk (Some l) (Some a)) sc = Done tt sc' /\
    blocks (memory sc') !! l = Some (cb_after IncWeak c) /\
    (forall l' : loc, l' <> l -> blocks (memory sc') !! l' = blocks (memory sc) !! l') /\
    fired (memory sc') = fired (memory sc) /\
    MySharedPtr.use_count (MySharedPtr.mk (Some l) (Some a)) (memory sc')
      = Done (strong_ref c) (memory sc') /\
    (exists wd : Widget.t,
       widgets sc' !! this = Some wd /\
       getParent wd = MyWeakPtr.mk (Some a) (Some l) /\
       getChildren wd = [] /\ class wd = k) /\
    (exists wd : Widget.t,
       widgets sc' !! a = Some wd /\
       getParent wd = getParent pw /\
       getChildren wd = getChildren pw ++ [MyUniquePtr.mk (Some this) DefaultDelete]) /\
    (forall b : loc, b <> this -> b <> a -> widgets sc' !! b = widgets sc !! b).
Proof.
  intros Hl Ha Hne. eexists. split; [apply (widget_ctor_live k this a l c pw sc Hl Ha Hne)|].
  cbn [memory widgets blocks fired].
  split; [apply lookup_insert_eq|].
  split; [intros l' Hl'; by rewrite lookup_insert_ne|]. split; [reflexivity|].
  split.
  { erewrite shared_use_count_live by (cbn [blocks]; apply lookup_insert_eq).
    reflexivity. }
  split.
  { eexists. split; [rewrite lookup_insert_ne by done; apply lookup_insert_eq|done]. }
  split.
  { eexists. split; [apply lookup_insert_eq|done]. }
  intros b Hb1 Hb2. by rewrite !lookup_insert_ne.
Qed.

(** The constructor needs a parent object: with an owner that has no
    control block it goes through the null [cb]; with an owner that
    has a control block but a null raw pointer it calls [addChild]
    through nullptr; with an owner whose raw pointer is not the
    address of a Widget it calls [addChild] on no object. *)
Theorem widget_ctor_needs_parent_object (k : cls) (this l : loc) (p : rawptr)
    (c : ControlBlock (default_delete Scalar)) (sc : scene) :
  ctor k this (MySharedPtr.mk nullptr p) sc = Undefined NullDeref /\
  (blocks (memory sc) !! l = Some c ->
   ctor k this (MySharedPtr.mk (Some l) nullptr) sc = Undefined NullDeref) /\
  (forall a : loc,
     blocks (memory sc) !! l = Some c -> a <> this -> widgets sc !! a = None ->
     ctor k this (MySharedPtr.mk (Some l) (Some a)) sc = Undefined UseAfterFree).
Proof.
  split; [reflexivity|]. split.
  - intros Hl. unfold ctor. unfold bind at 1. unfold on_memory.
    rewrite (weak_ctor_shared_live l nullptr c (memory sc) Hl). reflexivity.
  - intros a Hl Hne Ha. unfold ctor. unfold bind at 1. unfold on_memory.
    rewrite (weak_ctor_shared_live l (Some a) c (memory sc) Hl).
    unfold bind. cbn [memory widgets]. unfold addChild, operator_arrow.
    cbn [MySharedPtr.ptr widgets memory].
    rewrite lookup_insert_ne by done. by rewrite Ha.
Qed.

(** Children constructed one after the other under the same parent are
    appended to the parent's children in the order of construction;
    the parent's control block counts one observer more per child, its
    strong count does not move and no policy is called; each child
    refers back to the parent and starts without children; widgets at
    other addresses are untouched. *)
Theorem widget_children_in_construction_order (k : cls) (addrs : list loc) (a l : loc) :
  forall (c : ControlBlock (default_delete Scalar)) (pw : Widget.t) (sc : scene),
    blocks (memory sc) !! l = Some c ->
    widgets sc !! a = Some pw -> a ∉ addrs ->
    0 <= weak_ref c -> weak_ref c + Z.of_nat (length addrs) < 2 ^ SIZE_WIDTH ->
    exists sc' : scene,
      ctor_all k addrs (MySharedPtr.mk (Some l) (Some a)) sc = Done tt sc' /\
      blocks (memory sc') !! l =
        Some (mkControlBlock (strong_ref c) (weak_ref c + Z.of_nat (length addrs))
                             (deleter c)) /\
      fired (memory sc') = fired (memory sc) /\
      widgets sc' !! a =
        Some (mk (parent pw)
                 (children pw ++
                    map (fun x => MyUniquePtr.mk (Some x) DefaultDelete) addrs)
                 (class pw)) /\
      (forall x : loc, x ∈ addrs ->
         widgets sc' !! x = Some (mk (MyWeakPtr.mk (Some a) (Some l)) [] k)) /\
      (forall b : loc, b ∉ addrs -> b <> a -> widgets sc' !! b = widgets sc !! b).
Proof.
  induction addrs as [|x addrs IH]; intros c pw sc Hl Ha Hnotin Hk0 Hk1.
  - exists sc. cbn [ctor_all length map]. unfold ret. rewrite Z.add_0_r, app_nil_r.
    split; [reflexivity|]. split; [by rewrite control_block_eta|].
    split; [reflexivity|]. split; [by destruct pw|].
    split; [intros y Hy; by apply elem_of_nil in Hy|done].
  - apply not_elem_of_cons in Hnotin as [Hax Hnotin]. cbn [length] in Hk1.
    cbn [ctor_all]. unfold bind.
    rewrite (widget_ctor_live k x a l c pw sc Hl Ha Hax).
    set (c1 := cb_after IncWeak c).
    set (pw1 := mk (parent pw)
                   (children pw ++ [MyUniquePtr.mk (Some x) DefaultDelete]) (class pw)).
    set (sc1 := mkScene _ _).
    destruct (IH c1 pw1 sc1) as (sc' & Hrun & Hblock & Hfired & Hparent & Hkids & Hframe).
    { cbn [sc1 memory blocks]. apply lookup_insert_eq. }
    { cbn [sc1 widgets]. apply lookup_insert_eq. }
    { done. }
    { cbn [c1 cb_after weak_ref]. rewrite size_t_small by lia. lia. }
    { cbn [c1 cb_after weak_ref]. rewrite size_t_small by lia. lia. }
    exists sc'. split; [exact Hrun|]. split; [|split; [|split; [|split]]].
    + rewrite Hblock. cbn [c1 cb_after strong_ref weak_ref deleter].
      rewrite size_t_small by lia. do 2 f_equal. cbn [length]. lia.
    + by rewrite Hfired.
    + rewrite Hparent. cbn [pw1 parent children class map].
      by rewrite <- app_assoc.
    + intros y Hy. destruct (decide (y ∈ addrs)) as [Hin|Hout]; [by apply Hkids|].
      apply elem_of_cons in Hy as [->|Hy]; [|done].
      rewrite (Hframe x Hout) by done. cbn [sc1 widgets].
      rewrite lookup_insert_ne by done. apply lookup_insert_eq.
    + intros b Hb Hba. apply not_elem_of_cons in Hb as [Hbx Hb].
      rewrite (Hframe b Hb Hba). cbn [sc1 widgets]. by rewrite !lookup_insert_ne.
Qed.
End WidgetFacts.

Lemma widget_ctor_registers_with_parent_witness :
  blocks (Widget.memory scene_with_root) !! 1%positive
    = Some (mkControlBlock 1 0 DefaultDelete) /\
  exists sc' : Widget.scene,
    Widget.ctor Widget.CalendarWidget 11%positive
      (MySharedPtr.mk (Some 1%positive) (Some 10%positive)) scene_with_root
      = Done tt sc' /\
    blocks (Widget.memory sc') !! 1%positive = Some (mkControlBlock 1 1 DefaultDelete).
Proof.
  split; [reflexivity|].
  assert (Hne : 10%positive <> 11%positive) by discriminate.
  destruct (widget_ctor_registers_with_parent Widget.CalendarWidget
              11%positive 10%positive 1%positive
              (mkControlBlock 1 0 DefaultDelete)
              (Widget.mk MyWeakPtr.ctor_default [] Widget.TabWidget)
              scene_with_root eq_refl eq_refl Hne)
    as (sc' & Hrun & Hblock & _).
  exists sc'. split; [exact Hrun|exact Hblock].
Defined.

Lemma widget_children_in_construction_order_witness :
  Widget.widgets scene_with_root !! 10%positive
    = Some (Widget.mk MyWeakPtr.ctor_default [] Widget.TabWidget) /\
  exists sc' : Widget.scene,
    Widget.ctor_all Widget.TabWidget [11%positive; 12%positive]
      (MySharedPtr.mk (Some 1%positive) (Some 10%positive)) scene_with_root
      = Done tt sc' /\
    Widget.getChildren <$> Widget.widgets sc' !! 10%positive
      = Some [MyUniquePtr.mk (Some 11%positive) DefaultDelete;
              MyUniquePtr.mk (Some 12%positive) DefaultDelete].
Proof.
  split; [reflexivity|].
  assert (Hnotin : 10%positive ∉ [11%positive; 12%positive]).
  { intros Hin. apply elem_of_cons in Hin as [Hin|Hin]; [discriminate|].
    apply list_elem_of_singleton in Hin. discriminate. }
  assert (Hk0 : 0 <= 0) by lia.
  assert (Hk1 : 0 + Z.of_nat 2 < 2 ^ SIZE_WIDTH) by (vm_compute; reflexivity).
  destruct (widget_children_in_construction_order Widget.TabWidget
              [11%positive; 12%positive] 10%positive 1%positive
              (mkControlBlock 1 0 DefaultDelete)
              (Widget.mk MyWeakPtr.ctor_default [] Widget.TabWidget)
              scene_with_root eq_refl eq_refl Hnotin Hk0 Hk1)
    as (sc' & Hrun & _ & _ & Hparent & _).
  exists sc'. split; [exact Hrun|]. by rewrite Hparent.
Defined.

(** ** A client of MyUniquePtr: every resource is in one place *)

Section HolderFacts.
Context {v : variant} {D : Type} `{DeletionPolicy D}.

(** Occurrences of the resource [a] in a list of resources. *)
Definition occurrences (l : list loc) (a : loc) : nat := count_occ Pos.eq_dec l a.

Lemma occurrences_app (l k : list loc) (a : loc) :
  occurrences (l ++ k) a = (occurrences l a + occurrences k a)%nat.
Proof. apply count_occ_app. Qed.

Lemma held_in_insert_fresh (m : gmap nat (MyUniquePtr.t v D)) (i : nat)
    (x : MyUniquePtr.t v D) (a : loc) :
  m !! i = None ->
  occurrences (held_in (<[i := x]> m)) a =
    (occurrences (option_list (MyUniquePtr.ptr x)) a + occurrences (held_in m) a)%nat.
Proof.
  intros Hi. unfold held_in, occurrences.
  rewrite (proj1 (Permutation_count_occ Pos.eq_dec _ _)
             (omap_Permutation _ _ _ (map_to_list_insert m i x Hi)) a).
  cbn [omap list_omap snd]. destruct (MyUniquePtr.ptr x) as [p|]; [|reflexivity].
  change (p :: ?l) with ([p] ++ l). by rewrite count_occ_app.
Qed.

Lemma held_in_delete (m : gmap nat (MyUniquePtr.t v D)) (i : nat)
    (y : MyUniquePtr.t v D) (a : loc) :
  m !! i = Some y ->
  occurrences (held_in m) a =
    (occurrences (option_list (MyUniquePtr.ptr y)) a
     + occurrences (held_in (delete i m)) a)%nat.
Proof.
  intros Hi. rewrite <- (insert_delete_id m i y Hi) at 1.
  apply held_in_insert_fresh, lookup_delete_eq.
Qed.

Lemma held_in_update (m : gmap nat (MyUniquePtr.t v D)) (i : nat)
    (x y : MyUniquePtr.t v D) (a : loc) :
  m !! i = Some y ->
  (occurrences (held_in (<[i := x]> m)) a
   + occurrences (option_list (MyUniquePtr.ptr y)) a =
   occurrences (held_in m) a + occurrences (option_list (MyUniquePtr.ptr x)) a)%nat.
Proof.
  intros Hi. rewrite (held_in_delete m i y a Hi).
  rewrite <- (insert_delete_eq m i x).
  rewrite (held_in_insert_fresh (delete i m) i x a) by apply lookup_delete_eq. lia.
Qed.

Lemma held_in_update2 (m : gmap nat (MyUniquePtr.t v D)) (i j : nat)
    (xi xj yi yj : MyUniquePtr.t v D) (a : loc) :
  m !! i = Some yi -> m !! j = Some yj -> i <> j ->
  (occurrences (held_in (<[i := xi]> (<[j := xj]> m))) a
   + occurrences (option_list (MyUniquePtr.ptr yi)) a
   + occurrences (option_list (MyUniquePtr.ptr yj)) a =
   occurrences (held_in m) a
   + occurrences (option_list (MyUniquePtr.ptr xi)) a
   + occurrences (option_list (MyUniquePtr.ptr xj)) a)%nat.
Proof.
  intros Hi Hj Hne.
  pose proof (held_in_update m j xj yj a Hj) as H1.
  assert (Hi2 : <[j := xj]> m !! i = Some yi) by (by rewrite lookup_insert_ne).
  pose proof (held_in_update (<[j := xj]> m) i xi yi a Hi2) as H2. lia.
Qed.

Lemma freed_app (b : gmap loc (ControlBlock D)) (f k : list (D * rawptr)) (a : loc) :
  occurrences (freed (mkWorld b (f ++ k))) a =
    (occurrences (freed (mkWorld b f)) a + occurrences (omap snd k) a)%nat.
Proof. unfold freed. cbn [fired]. by rewrite omap_app, occurrences_app. Qed.

Lemma occurrences_perm (l k : list loc) :
  l ≡ₚ k <-> forall a : loc, occurrences l a = occurrences k a.
Proof. apply (Permutation_count_occ Pos.eq_dec). Qed.
End HolderFacts.

Section HolderSteps.
Context {v : variant} {D : Type} `{DeletionPolicy D}.

Lemma occurrences_nil (a : loc) : occurrences [] a = 0%nat.
Proof. reflexivity. Qed.

Lemma occurrences_held_by (o : rawptr) (a : loc) :
  occurrences (option_list o) a = occurrences (omap id [o]) a.
Proof. by destruct o. Qed.

Ltac unfold_option_list :=
  repeat match goal with
         | |- context [option_list (Some ?p)] =>
             change (option_list (Some p)) with [p]
         | |- context [option_list (@None ?A)] =>
             change (option_list (@None A)) with (@nil A)
         | Hyp : context [option_list (Some ?p)] |- _ =>
             change (option_list (Some p)) with [p] in Hyp
         | Hyp : context [option_list (@None ?A)] |- _ =>
             change (option_list (@None A)) with (@nil A) in Hyp
         end.

Lemma held_in_two (m : gmap nat (MyUniquePtr.t v D)) (i j : nat)
    (yi yj : MyUniquePtr.t v D) (a : loc) :
  m !! i = Some yi -> m !! j = Some yj -> i <> j ->
  (occurrences (option_list (MyUniquePtr.ptr yi)) a
   + occurrences (option_list (MyUniquePtr.ptr yj)) a
   <= occurrences (held_in m) a)%nat.
Proof.
  intros Hi Hj Hne. rewrite (held_in_delete m i yi a Hi).
  rewrite (held_in_delete (delete i m) j yj a) by (by rewrite lookup_delete_ne). lia.
Qed.

Lemma holder_step_conserves (op : unique_op) (h : holder v D) (w : world D) :
  (forall a : loc, (occurrences (held h) a <= 1)%nat) ->
  exists (h' : holder v D) (w' : world D),
    holder_step op h w = Done h' w' /\
    blocks w' = blocks w /\
    forall a : loc,
      (occurrences (held h') a + occurrences (handed_back h') a
       + occurrences (freed w') a =
       occurrences (held h) a + occurrences (handed_back h) a
       + occurrences (freed w) a + occurrences (made [op]) a)%nat.
Proof.
  intros Honce. destruct h as [m tk]. unfold held, handed_back in *. cbn [objects taken] in *.
  assert (Hskip : exists (h' : holder v D) (w' : world D),
            ret (mkHolder m tk) w = Done h' w' /\ blocks w' = blocks w /\
            forall a : loc,
              (occurrences (held_in (objects h')) a + occurrences (omap id (taken h')) a
               + occurrences (freed w') a =
               occurrences (held_in m) a + occurrences (omap id tk) a
               + occurrences (freed w) a + 0)%nat).
  { exists (mkHolder m tk), w. split; [reflexivity|]. split; [reflexivity|].
    intros a. cbn [objects taken]. lia. }
  destruct op as [p|i|i j|i|i|i j|i]; cbn [holder_step made objects taken];
    rewrite ?occurrences_nil.
  - (* UMake *)
    eexists _, _. split; [reflexivity|]. split; [reflexivity|].
    intros a. cbn [objects taken].
    rewrite held_in_insert_fresh by (apply not_elem_of_dom, is_fresh).
    cbn [MyUniquePtr.ctor MyUniquePtr.ptr]. unfold_option_list. rewrite ?occurrences_nil; lia.
  - (* UMoveCtor *)
    destruct (m !! i) as [other|] eqn:Hi; [|exact Hskip].
    eexists _, _. split; [reflexivity|]. split; [reflexivity|].
    intros a. cbn [objects taken MyUniquePtr.ctor_move fst snd].
    rewrite held_in_insert_fresh by (apply not_elem_of_dom, is_fresh).
    pose proof (held_in_update m i (MyUniquePtr.mk nullptr (MyUniquePtr.deleter other))
                  other a Hi) as Hupd.
    cbn [MyUniquePtr.ptr] in *. unfold_option_list. rewrite ?occurrences_nil in Hupd. rewrite ?occurrences_nil; lia.
  - (* UMoveAssign *)
    destruct (m !! i) as [this|] eqn:Hi; [|exact Hskip].
    destruct (m !! j) as [other|] eqn:Hj; [|exact Hskip].
    destruct (decide (i = j)) as [Heq|Hne].
    + subst j. assert (other = this) as -> by congruence.
      rewrite bool_decide_eq_true_2 by done.
      cbn [MyUniquePtr.assign_move negb]. unfold bind, ret. cbn [fst snd].
      rewrite insert_insert_eq, (insert_id m i this Hi).
      exists (mkHolder m tk), w. split; [reflexivity|]. split; [reflexivity|].
      intros a. cbn [objects taken]. rewrite ?occurrences_nil; lia.
    + rewrite bool_decide_eq_false_2 by done.
      cbn [MyUniquePtr.assign_move negb]. unfold bind.
      rewrite unique_reset_cases. unfold ret. cbn [fst snd].
      eexists _, _. split; [reflexivity|]. split; [reflexivity|].
      intros a. cbn [objects taken]. rewrite freed_app, world_eta.
      pose proof (held_in_update2 m i j
                    (MyUniquePtr.mk (MyUniquePtr.ptr other) (MyUniquePtr.deleter this))
                    (MyUniquePtr.mk nullptr (MyUniquePtr.deleter other))
                    this other a Hi Hj Hne) as Hupd.
      pose proof (held_in_two m i j this other a Hi Hj Hne) as Htwo.
      specialize (Honce a).
      cbn [MyUniquePtr.ptr] in *. unfold_option_list. rewrite ?occurrences_nil in Hupd.
      destruct (MyUniquePtr.ptr this) as [pa|], (MyUniquePtr.ptr other) as [pb|];
        unfold_option_list; rewrite ?occurrences_nil in *.
      * destruct (decide (pa = pb)) as [->|Hp].
        -- rewrite rawptr_eqb_refl. cbn [omap list_omap]. rewrite occurrences_nil.
           destruct (decide (a = pb)) as [->|Hab].
           ++ assert (occurrences [pb] pb = 1%nat) as Hone
                by (unfold occurrences; cbn; by destruct (Pos.eq_dec pb pb)).
              rewrite ?occurrences_nil; lia.
           ++ assert (occurrences [pb] a = 0%nat) as Hzero
                by (unfold occurrences; cbn; by destruct (Pos.eq_dec pb a)).
              rewrite ?occurrences_nil; lia.
        -- rewrite rawptr_eqb_ne by congruence. cbn [omap list_omap snd]. rewrite ?occurrences_nil; lia.
      * rewrite rawptr_eqb_ne by done. cbn [omap list_omap snd]. rewrite ?occurrences_nil; lia.
      * lia.
      * lia.
  - (* UReset *)
    destruct (m !! i) as [this|] eqn:Hi; [|exact Hskip].
    unfold bind. rewrite unique_reset_cases. unfold ret.
    eexists _, _. split; [reflexivity|]. split; [reflexivity|].
    intros a. cbn [objects taken]. rewrite freed_app, world_eta.
    pose proof (held_in_update m i (MyUniquePtr.mk nullptr (MyUniquePtr.deleter this))
                  this a Hi) as Hupd.
    cbn [MyUniquePtr.ptr] in *. unfold_option_list. rewrite ?occurrences_nil in Hupd.
    destruct (MyUniquePtr.ptr this) as [pa|]; unfold_option_list.
    + rewrite rawptr_eqb_ne by done. cbn [omap list_omap snd]. rewrite ?occurrences_nil; lia.
    + try rewrite rawptr_eqb_refl. cbn [omap list_omap]. rewrite ?occurrences_nil in *.
      rewrite ?occurrences_nil; lia.
  - (* URelease *)
    destruct (m !! i) as [this|] eqn:Hi; [|exact Hskip].
    eexists _, _. split; [reflexivity|]. split; [reflexivity|].
    intros a. cbn [objects taken MyUniquePtr.release fst snd].
    rewrite omap_app, occurrences_app.
    pose proof (held_in_update m i (MyUniquePtr.mk nullptr (MyUniquePtr.deleter this))
                  this a Hi) as Hupd.
    cbn [MyUniquePtr.ptr] in *. unfold_option_list. rewrite ?occurrences_nil in Hupd.
    destruct (MyUniquePtr.ptr this) as [pa|]; unfold_option_list;
      cbn [omap list_omap id] in *; rewrite ?occurrences_nil in *; rewrite ?occurrences_nil; lia.
  - (* USwap *)
    destruct (m !! i) as [this|] eqn:Hi; [|exact Hskip].
    destruct (m !! j) as [other|] eqn:Hj; [|exact Hskip].
    eexists _, _. split; [reflexivity|]. split; [reflexivity|].
    intros a. cbn [objects taken MyUniquePtr.swap fst snd].
    destruct (decide (i = j)) as [Heq|Hne].
    + subst j. assert (other = this) as -> by congruence.
      rewrite insert_insert_eq, unique_eta, (insert_id m i this Hi). rewrite ?occurrences_nil; lia.
    + pose proof (held_in_update2 m i j
                    (MyUniquePtr.mk (MyUniquePtr.ptr other) (MyUniquePtr.deleter this))
                    (MyUniquePtr.mk (MyUniquePtr.ptr this) (MyUniquePtr.deleter other))
                    this other a Hi Hj Hne) as Hupd.
      cbn [MyUniquePtr.ptr] in Hupd. rewrite ?occurrences_nil; lia.
  - (* UDrop *)
    destruct (m !! i) as [this|] eqn:Hi; [|exact Hskip].
    unfold bind, MyUniquePtr.dtor. unfold bind. rewrite unique_reset_cases. unfold ret.
    eexists _, _. split; [reflexivity|]. split; [reflexivity|].
    intros a. cbn [objects taken]. rewrite freed_app, world_eta.
    pose proof (held_in_delete m i this a Hi) as Hdel.
    destruct (MyUniquePtr.ptr this) as [pa|]; unfold_option_list.
    + rewrite rawptr_eqb_ne by done. cbn [omap list_omap snd]. rewrite ?occurrences_nil; lia.
    + try rewrite rawptr_eqb_refl. cbn [omap list_omap]. rewrite ?occurrences_nil in *.
      rewrite ?occurrences_nil; lia.
Qed.
End HolderSteps.

Section HolderTheorems.
Context {v : variant} {D : Type} `{DeletionPolicy D}.

Lemma made_cons (op : unique_op) (ops : list unique_op) :
  made (op :: ops) = made [op] ++ made ops.
Proof. by destruct op. Qed.

Lemma holder_run_conserves (ops : list unique_op) :
  forall (created : list loc) (h : holder v D) (w : world D),
    NoDup (created ++ made ops) ->
    held h ++ handed_back h ++ freed w ≡ₚ created ->
    exists (h' : holder v D) (w' : world D),
      holder_run ops h w = Done h' w' /\
      blocks w' = blocks w /\
      held h' ++ handed_back h' ++ freed w' ≡ₚ created ++ made ops.
Proof.
  induction ops as [|op ops IH]; intros created h w Hnd Hinv.
  - exists h, w. cbn [holder_run made]. by rewrite app_nil_r.
  - assert (Honce : forall a : loc, (occurrences (held h) a <= 1)%nat).
    { intros a. apply NoDup_app in Hnd as (Hnd & _).
      pose proof (proj1 (NoDup_count_occ Pos.eq_dec created)
                    (proj1 (NoDup_ListNoDup created) Hnd) a) as Hle.
      pose proof (proj1 (occurrences_perm _ _) Hinv a) as Hcount.
      rewrite !occurrences_app in Hcount. unfold occurrences in *. lia. }
    destruct (holder_step_conserves op h w Honce) as (h1 & w1 & Hstep & Hb1 & Hcount).
    rewrite (made_cons op ops), app_assoc in Hnd.
    destruct (IH (created ++ made [op]) h1 w1 Hnd) as (h' & w' & Hrun & Hb' & Hinv').
    { apply occurrences_perm. intros a. specialize (Hcount a).
      pose proof (proj1 (occurrences_perm _ _) Hinv a) as Hold.
      rewrite !occurrences_app in *. lia. }
    exists h', w'. cbn [holder_run]. unfold bind. rewrite Hstep.
    split; [exact Hrun|]. split; [congruence|].
    etransitivity; [exact Hinv'|]. by rewrite (made_cons op ops), <- app_assoc.
Qed.

(** A client that makes MyUniquePtr objects for different resources
    and then moves, swaps, resets, releases and destroys them:
    whatever it does, each of the resources is in exactly one place,
    held by one live object, handed back by [release()], or released by
    one call of a policy.  So no two objects hold the same resource,
    nothing is released twice and nothing released is still held; no
    control block is touched; and once all objects are gone every
    resource has been handed back or released. *)
Theorem unique_client_resources_in_one_place (ops : list unique_op) (w : world D) :
  fired w = [] -> NoDup (made ops) ->
  exists (h' : holder v D) (w' : world D),
    holder_run ops (mkHolder ∅ []) w = Done h' w' /\
    blocks w' = blocks w /\
    held h' ++ handed_back h' ++ freed w' ≡ₚ made ops /\
    NoDup (held h' ++ handed_back h' ++ freed w') /\
    (objects h' = ∅ -> handed_back h' ++ freed w' ≡ₚ made ops).
Proof.
  intros Hf Hnd.
  destruct (holder_run_conserves ops [] (mkHolder ∅ []) w) as (h' & w' & Hrun & Hb & Hinv).
  { exact Hnd. }
  { unfold held, held_in, handed_back, freed. cbn [objects taken].
    by rewrite map_to_list_empty, Hf. }
  cbn [app] in Hinv. exists h', w'. split; [done|]. split; [done|]. split; [done|].
  split.
  - by rewrite Hinv.
  - intros Hempty. unfold held, held_in in Hinv.
    by rewrite Hempty, map_to_list_empty in Hinv.
Qed.
End HolderTheorems.

Lemma unique_client_resources_in_one_place_witness :
  NoDup (made [UMake 7%positive; UMake 8%positive; UMoveCtor 0; UMoveAssign 1 2;
               URelease 1; UDrop 0; UDrop 1; UDrop 2]) /\
  exists (h' : holder Scalar (default_delete Scalar)) (w' : world (default_delete Scalar)),
    holder_run [UMake 7%positive; UMake 8%positive; UMoveCtor 0; UMoveAssign 1 2;
                URelease 1; UDrop 0; UDrop 1; UDrop 2]
               (mkHolder ∅ []) empty_world = Done h' w' /\
    handed_back h' = [7%positive] /\ freed w' = [8%positive] /\
    handed_back h' ++ freed w' ≡ₚ [7%positive; 8%positive].
Proof.
  assert (Hnd : NoDup (made [UMake 7%positive; UMake 8%positive; UMoveCtor 0;
                             UMoveAssign 1 2; URelease 1; UDrop 0; UDrop 1; UDrop 2])).
  { cbn. apply NoDup_cons. split; [|apply NoDup_singleton].
    rewrite list_elem_of_singleton. discriminate. }
  split; [exact Hnd|].
  destruct (unique_client_resources_in_one_place (v := Scalar)
              [UMake 7%positive; UMake 8%positive; UMoveCtor 0; UMoveAssign 1 2;
               URelease 1; UDrop 0; UDrop 1; UDrop 2]
              empty_world eq_refl Hnd)
    as (h' & w' & Hrun & _ & _ & _ & Hgone).
  assert (Hconcrete :
            holder_run [UMake 7%positive; UMake 8%positive; UMoveCtor 0; UMoveAssign 1 2;
                        URelease 1; UDrop 0; UDrop 1; UDrop 2]
                       (mkHolder ∅ []) empty_world
            = Done (mkHolder (v := Scalar) ∅ [Some 7%positive])
                   (mkWorld (D := default_delete Scalar) ∅
                            [(DefaultDelete, Some 8%positive)]))
    by reflexivity.
  rewrite Hconcrete in Hrun. injection Hrun as <- <-.
  eexists _, _. split; [reflexivity|]. split; [reflexivity|]. split; [reflexivity|].
  by apply Hgone.
Defined.
